(** * Vector addition benchmark: sequential loop and CUDA kernel

  A shallow embedding of the two programs written out by the notebook
  [TensorFlow_with_GPU.ipynb]: [vector_addition_sequential.cpp] (a single
  loop over [std::vector<float>]) and [vector_addition_parallel.cu] (a CUDA
  kernel with its host driver).

  - C++ [int], [unsigned int] and [size_t] are integers of [Z] with the
    wrap-around of their width written out.
  - [float] is IEEE 754 binary32, through the executable specification of
    the Standard Library ([SpecFloat], precision 24, maximal exponent 128);
    where the bits of a result matter, values are 32-bit patterns with the
    addition of the host and the addition of the device.
  - A host [std::vector<float>] is a [list]; indexing outside of the vector
    is undefined in C++ and is [None] here.
  - Device memory is a finite map from device pointers to buffers; the
    kernel reads and writes it through its three pointer arguments.
  - The host driver runs in a state-and-failure monad over the state of the
    CUDA runtime, the two output streams and the trace of the calls made. *)

From Stdlib Require Import ZArith Lia Ascii.
From Stdlib Require Import Floats.SpecFloat.
From stdpp Require Import gmap strings list pretty.

Local Open Scope Z_scope.

(** ** Machine integers *)

Module Int.

Definition INT_MAX : Z := 2147483647.
Definition INT_MIN : Z := -2147483648.

(** Conversion to [unsigned int]: reduction modulo 2^32. *)
Definition to_uint (z : Z) : Z := z mod 4294967296.

(** Conversion to [int]: the value congruent modulo 2^32 that lies in
    [INT_MIN, INT_MAX]. *)
Definition to_int (z : Z) : Z :=
  let u := to_uint z in
  if u <? 2147483648 then u else u - 4294967296.

(** Conversion to [size_t] (64 bits). *)
Definition to_size_t (z : Z) : Z := z mod 18446744073709551616.

(** [x + y] and [x / y] on [int] operands. Division truncates towards
    zero. *)
Definition add (x y : Z) : Z := to_int (x + y).
Definition div (x y : Z) : Z := to_int (Z.quot x y).

End Int.

(** ** The two adders, for any element type with an addition *)

Section Adders.

Context {F : Type} (fadd : F → F → F).

(** *** Host vectors *)

(** [v[i]] read and written through [operator[]]; the index is an [int]
    converted to [size_type]. *)
Definition vec_get (v : list F) (i : Z) : option F :=
  if bool_decide (0 ≤ i) then v !! Z.to_nat i else None.

Definition vec_set (v : list F) (i : Z) (x : F) : option (list F) :=
  if bool_decide (0 ≤ i < Z.of_nat (length v))
  then Some (<[Z.to_nat i := x]> v) else None.

(** [for (int i = i0; i < n; ++i) body], on a state of type [S]. The loop
    test is the one of the source; the fuel only makes the recursion
    structural, and running dry is a failure. *)
Fixpoint for_lt {S : Type} (fuel : nat) (i n : Z)
    (body : Z → S → option S) (s : S) : option S :=
  if i <? n then
    match fuel with
    | O => None
    | Datatypes.S fuel' =>
        s' ← body i s; for_lt fuel' (Int.add i 1) n body s'
    end
  else Some s.

(** The body of the loop: [c[i] = a[i] + b[i];]. *)
Definition seq_body (a b : list F) (i : Z) (c : list F) : option (list F) :=
  x ← vec_get a i; y ← vec_get b i; vec_set c i (fadd x y).

(** [int n = a.size();]: the narrowing of a [size_t] to [int]. *)
Definition seq_n (a : list F) : Z := Int.to_int (Z.of_nat (length a)).

(** Number of iterations of the loop. *)
Definition seq_iterations (a : list F) : nat := Z.to_nat (seq_n a).

Definition vectorAddSequential (a b c : list F) : option (list F) :=
  let n := seq_n a in
  for_lt (seq_iterations a) 0 n (seq_body a b) c.

(** *** Device memory and the kernel *)

(** A device pointer names a buffer; [p[i]] is defined inside of it. *)
Definition dev_load (h : gmap nat (list F)) (p : nat) (i : Z) : option F :=
  l ← h !! p; vec_get l i.

Definition dev_store (h : gmap nat (list F)) (p : nat) (i : Z) (x : F)
    : option (gmap nat (list F)) :=
  l ← h !! p; l' ← vec_set l i x; Some (<[p := l']> h).

(** [threadIdx.x + blockDim.x * blockIdx.x], computed on [unsigned int]
    and stored in [int i]. *)
Definition global_index (blockDim blockIdx threadIdx : Z) : Z :=
  Int.to_int (Int.to_uint (threadIdx + Int.to_uint (blockDim * blockIdx))).

(** One execution unit of the kernel. *)
Definition vectorAddParallel (a b c : nat) (n : Z)
    (blockDim blockIdx threadIdx : Z) (h : gmap nat (list F))
    : option (gmap nat (list F)) :=
  let i := global_index blockDim blockIdx threadIdx in
  if i <? n then
    x ← dev_load h a i; y ← dev_load h b i; dev_store h c i (fadd x y)
  else Some h.

(** The execution units of a launch [<<<gridDim, blockDim>>>] (both of the
    form [(x, 1, 1)]), as pairs of a block and a thread index. *)
Definition grid_threads (gridDim blockDim : Z) : list (Z * Z) :=
  bid ← seqZ 0 gridDim; tid ← seqZ 0 blockDim; [(bid, tid)].

(** Units run one after the other in the order [ts]; a unit that fails
    makes the launch undefined. *)
Fixpoint run_threads (kernel : Z → Z → gmap nat (list F) → option (gmap nat (list F)))
    (ts : list (Z * Z)) (h : gmap nat (list F)) : option (gmap nat (list F)) :=
  match ts with
  | [] => Some h
  | (bid, tid) :: ts' => h' ← kernel bid tid h; run_threads kernel ts' h'
  end.

(** The sum of the two inputs at an index, where both are defined. *)
Definition sum_at (a b : list F) (j : nat) : option F :=
  x ← a !! j; y ← b !! j; Some (fadd x y).

End Adders.

(** ** Single precision numbers *)

Module Float32.

Definition f32 : Type := spec_float.

(** [x + y] on [float]: binary32 addition, rounding to nearest even. *)
Definition add : f32 → f32 → f32 := SFadd 24 128.

(** The literals [0.0f] (the value of a value-initialised [float]), [1.0f],
    [2.0f] and [3.0f], with canonical 24-bit mantissas. *)
Definition zero : f32 := S754_zero false.
Definition one : f32 := S754_finite false 8388608 (-23).
Definition two : f32 := S754_finite false 8388608 (-22).
Definition three : f32 := S754_finite false 12582912 (-22).

End Float32.

Abbreviation f32 := Float32.f32.

(** ** The CUDA runtime and the process environment *)

(** [cudaError_t], by its numeric code. *)
Definition cudaError_t : Type := Z.
Definition cudaSuccess : cudaError_t := 0.
Definition cudaErrorInvalidConfiguration : cudaError_t := 9.

(** What the programs cannot decide themselves: the error the device raises
    while it runs the kernel ([cudaSuccess] when it raises none), the order
    in which the device runs the execution units of a launch, the contents
    of device memory that was allocated and never written, the readings of
    [high_resolution_clock] in nanoseconds, and the text that
    [cudaGetErrorString] gives for an error code. *)
Record Env : Type := {
  device_fault : cudaError_t;
  schedule : list (Z * Z) → list (Z * Z);
  uninitialised : nat → nat → f32;
  clock : nat → Z;
  cudaGetErrorString : cudaError_t → string
}.

(** The device runs every unit of a launch exactly once. *)
Definition fair (env : Env) : Prop := ∀ ts, schedule env ts ≡ₚ ts.

(** The calls a program makes, in program order. *)
Inductive Event : Type :=
  | EvMalloc (p : nat) (bytes : Z)
  | EvMemcpyHostToDevice (dst : nat) (bytes : Z)
  | EvMemcpyDeviceToHost (src : nat) (bytes : Z)
  | EvNow (t : Z)
  | EvLaunch (gridDim blockDim : Z)
  | EvDeviceSynchronize
  | EvGetLastError (e : cudaError_t)
  | EvFree (p : nat)
  | EvCout (s : string)
  | EvCerr (s : string).

(** State of the process: the allocated device buffers, the next device
    pointer, the error the runtime remembers, the number of clock readings
    taken, what was written to the two streams and the calls made so far. *)
Record Machine : Type := {
  heap : gmap nat (list f32);
  next_ptr : nat;
  last_error : cudaError_t;
  clock_reads : nat;
  stdout : string;
  stderr : string;
  trace : list Event
}.

Definition initial : Machine :=
  {| heap := ∅; next_ptr := 0; last_error := cudaSuccess; clock_reads := 0;
     stdout := EmptyString; stderr := EmptyString; trace := [] |}.

(** Programs: a state transformer that may be undefined. *)
Definition Prog (A : Type) : Type := Machine → option (A * Machine).

#[global] Instance prog_ret : MRet Prog := λ A x m, Some (x, m).

#[global] Instance prog_bind : MBind Prog := λ A B f p m,
  match p m with
  | Some (x, m') => f x m'
  | None => None
  end.

Definition emit (e : Event) (m : Machine) : Machine :=
  {| heap := heap m; next_ptr := next_ptr m; last_error := last_error m;
     clock_reads := clock_reads m; stdout := stdout m; stderr := stderr m;
     trace := trace m ++ [e] |}.

Definition set_heap (h : gmap nat (list f32)) (m : Machine) : Machine :=
  {| heap := h; next_ptr := next_ptr m; last_error := last_error m;
     clock_reads := clock_reads m; stdout := stdout m; stderr := stderr m;
     trace := trace m |}.

Definition set_last_error (e : cudaError_t) (m : Machine) : Machine :=
  {| heap := heap m; next_ptr := next_ptr m; last_error := e;
     clock_reads := clock_reads m; stdout := stdout m; stderr := stderr m;
     trace := trace m |}.

(** An operation of the source that is undefined yields no state. *)
Definition defined {A : Type} (o : option A) : Prog A :=
  λ m, x ← o; Some (x, m).

Definition newline : string := String "010"%char EmptyString.

Section Runtime.

Context (env : Env).

(** [sizeof(float)]. *)
Definition sizeof_float : Z := 4.

(** [cudaMalloc(&p, bytes)]: a new buffer of [bytes / sizeof(float)]
    elements with unspecified contents. The programs ignore what the
    allocations and the copies return; here these calls always succeed, so
    the runs described are those in which the device had the memory. *)
Definition cudaMalloc (bytes : Z) : Prog nat := λ m,
  let p := next_ptr m in
  let cells := uninitialised env p <$> seq 0 (Z.to_nat (bytes `quot` sizeof_float)) in
  Some (p, emit (EvMalloc p bytes)
    {| heap := <[p := cells]> (heap m); next_ptr := S p;
       last_error := last_error m; clock_reads := clock_reads m;
       stdout := stdout m; stderr := stderr m; trace := trace m |}).

(** [cudaMemcpy(dst, src.data(), bytes, cudaMemcpyHostToDevice)]. Reading
    past the end of [src] or writing past the end of the buffer is
    undefined. *)
Definition cudaMemcpyHostToDevice (dst : nat) (src : list f32) (bytes : Z)
    : Prog unit := λ m,
  let k := Z.to_nat (bytes `quot` sizeof_float) in
  buf ← heap m !! dst;
  if bool_decide (k ≤ length src ∧ k ≤ length buf)%nat then
    Some (tt, emit (EvMemcpyHostToDevice dst bytes)
                (set_heap (<[dst := take k src ++ drop k buf]> (heap m)) m))
  else None.

(** [cudaMemcpy(dst.data(), src, bytes, cudaMemcpyDeviceToHost)]; the
    result is the host vector after the copy. *)
Definition cudaMemcpyDeviceToHost (dst : list f32) (src : nat) (bytes : Z)
    : Prog (list f32) := λ m,
  let k := Z.to_nat (bytes `quot` sizeof_float) in
  buf ← heap m !! src;
  if bool_decide (k ≤ length buf ∧ k ≤ length dst)%nat then
    Some (take k buf ++ drop k dst, emit (EvMemcpyDeviceToHost src bytes) m)
  else None.

(** [cudaFree(p)]. *)
Definition cudaFree (p : nat) : Prog unit := λ m,
  Some (tt, emit (EvFree p) (set_heap (delete p (heap m)) m)).

(** [std::chrono::high_resolution_clock::now()]. *)
Definition now : Prog Z := λ m,
  let t := clock env (clock_reads m) in
  Some (t, emit (EvNow t)
    {| heap := heap m; next_ptr := next_ptr m; last_error := last_error m;
       clock_reads := S (clock_reads m); stdout := stdout m;
       stderr := stderr m; trace := trace m |}).

(** [duration_cast<milliseconds>] of a difference of clock readings:
    truncation of nanoseconds to whole milliseconds. *)
Definition milliseconds (d : Z) : Z := d `quot` 1000000.

(** The runtime accepts a launch [<<<(g,1,1), (b,1,1)>>>] when the grid has
    between 1 and 2^31 - 1 blocks and the block between 1 and 1024
    threads. *)
Definition valid_launch (gridDim blockDim : Z) : bool :=
  bool_decide (1 ≤ gridDim ≤ 2147483647 ∧ 1 ≤ blockDim ≤ 1024).

(** [kernel<<<gridDim, blockDim>>>(...)]: a rejected launch runs no unit
    and leaves [cudaErrorInvalidConfiguration] as the last error; an
    accepted one runs every unit, in the order the device chooses. *)
Definition launch (gridDim blockDim : Z)
    (kernel : Z → Z → Z → gmap nat (list f32) → option (gmap nat (list f32)))
    : Prog unit := λ m,
  let m := emit (EvLaunch gridDim blockDim) m in
  if valid_launch gridDim blockDim then
    h ← run_threads (kernel blockDim)
          (schedule env (grid_threads gridDim blockDim)) (heap m);
    Some (tt, set_heap h m)
  else Some (tt, set_last_error cudaErrorInvalidConfiguration m).

(** [cudaDeviceSynchronize()]: returns when the device is done; an error
    raised by the device while running becomes the last error. *)
Definition cudaDeviceSynchronize : Prog unit := λ m,
  let m := emit EvDeviceSynchronize m in
  if bool_decide (last_error m = cudaSuccess ∧ device_fault env ≠ cudaSuccess)
  then Some (tt, set_last_error (device_fault env) m)
  else Some (tt, m).

(** [cudaGetLastError()]: returns the last error and resets it. *)
Definition cudaGetLastError : Prog cudaError_t := λ m,
  let e := last_error m in
  Some (e, emit (EvGetLastError e) (set_last_error cudaSuccess m)).

(** [std::cout << s] and [std::cerr << s]. *)
Definition cout (s : string) : Prog unit := λ m,
  Some (tt, emit (EvCout s)
    {| heap := heap m; next_ptr := next_ptr m; last_error := last_error m;
       clock_reads := clock_reads m; stdout := stdout m +:+ s;
       stderr := stderr m; trace := trace m |}).

Definition cerr (s : string) : Prog unit := λ m,
  Some (tt, emit (EvCerr s)
    {| heap := heap m; next_ptr := next_ptr m; last_error := last_error m;
       clock_reads := clock_reads m; stdout := stdout m;
       stderr := stderr m +:+ s; trace := trace m |}).

(** [std::vector<float> v(size, x)], for [0 ≤ size]. *)
Definition vector (size : Z) (x : f32) : list f32 := replicate (Z.to_nat size) x.

End Runtime.

(** ** [vector_addition_parallel.cu] *)

Module Parallel.

(** The [int] expression [(size + 255) / 256]. *)
Definition num_blocks (size : Z) : Z := Int.div (Int.add size 255) 256.

(** [main], for a value [size] of the constant; the result is the exit
    status with the contents of [h_c] when [main] returns. *)
Definition main_with (env : Env) (size : Z) : Prog (Z * list f32) :=
  let size_bytes := Int.to_size_t (Int.to_size_t size * sizeof_float) in
  let h_a := vector size Float32.one in
  let h_b := vector size Float32.two in
  let h_c := vector size Float32.zero in
  d_a ← cudaMalloc env size_bytes;
  d_b ← cudaMalloc env size_bytes;
  d_c ← cudaMalloc env size_bytes;
  cudaMemcpyHostToDevice d_a h_a size_bytes;;
  cudaMemcpyHostToDevice d_b h_b size_bytes;;
  let gridSize := Int.to_uint (num_blocks size) in
  let blockSize := Int.to_uint 256 in
  start_time ← now env;
  launch env gridSize blockSize (vectorAddParallel Float32.add d_a d_b d_c size);;
  cudaDeviceSynchronize env;;
  cudaError ← cudaGetLastError;
  if bool_decide (cudaError ≠ cudaSuccess) then
    cerr ("CUDA error: " +:+ cudaGetErrorString env cudaError +:+ newline);;
    mret (1, h_c)
  else
    h_c ← cudaMemcpyDeviceToHost h_c d_c size_bytes;
    end_time ← now env;
    let duration := milliseconds (end_time - start_time) in
    cout ("Parallel Vector Addition took " +:+ pretty duration
            +:+ " milliseconds." +:+ newline);;
    cudaFree d_a;;
    cudaFree d_b;;
    cudaFree d_c;;
    mret (0, h_c).

(** [int size = 1000 * 1000;] *)
Definition size : Z := 1000 * 1000.

Definition main (env : Env) : Prog (Z * list f32) := main_with env size.

(** The error that [cudaGetLastError] finds in [main_with]: the one of a
    rejected launch, or else the one the device raised while running. *)
Definition launch_error (env : Env) (size : Z) : cudaError_t :=
  if valid_launch (Int.to_uint (num_blocks size)) (Int.to_uint 256)
  then device_fault env else cudaErrorInvalidConfiguration.

End Parallel.

(** ** [vector_addition_sequential.cpp] *)

Module Sequential.

Definition main_with (env : Env) (size : Z) : Prog (Z * list f32) :=
  let h_a := vector size Float32.one in
  let h_b := vector size Float32.two in
  let h_c := vector size Float32.zero in
  start_time ← now env;
  h_c ← defined (vectorAddSequential Float32.add h_a h_b h_c);
  end_time ← now env;
  let duration := milliseconds (end_time - start_time) in
  cout ("Sequential Vector Addition took " +:+ pretty duration
          +:+ " milliseconds." +:+ newline);;
  mret (0, h_c).

Definition size : Z := 1000 * 1000.

Definition main (env : Env) : Prog (Z * list f32) := main_with env size.

End Sequential.

(** ** Reading a trace *)

(** The calls before the first clock reading of a trace, and the calls after
    it; [None] when the trace has no clock reading. *)
Fixpoint until_now (tr : list Event) : option (list Event * list Event) :=
  match tr with
  | [] => None
  | EvNow _ :: tr' => Some ([], tr')
  | e :: tr' => '(before, after) ← until_now tr'; Some (e :: before, after)
  end.

(** The calls made between the first and the second clock reading: what the
    reported duration measures. *)
Definition timed_interval (tr : list Event) : option (list Event) :=
  '(_, rest) ← until_now tr; '(mid, _) ← until_now rest; Some mid.

(** The calls made before the first clock reading. *)
Definition before_timing (tr : list Event) : option (list Event) :=
  fst <$> until_now tr.

(** The transfers between host and device. *)
Definition is_transfer (e : Event) : bool :=
  match e with
  | EvMemcpyHostToDevice _ _ | EvMemcpyDeviceToHost _ _ => true
  | _ => false
  end.

(** What a program writes to one of its two streams. *)
Definition is_output (e : Event) : bool :=
  match e with
  | EvCout _ | EvCerr _ => true
  | _ => false
  end.

(** ** Sample environments and inputs *)

(** A device that raises no error and runs the units of a launch from the
    last one to the first. Fresh device memory holds NaN; the clock advances
    by 1.5 ms from one reading to the next. *)
Definition quiet_device : Env :=
  {| device_fault := cudaSuccess;
     schedule := reverse;
     uninitialised := λ _ _, S754_nan;
     clock := λ k, 1500000 * Z.of_nat k;
     cudaGetErrorString := λ e, "error " +:+ pretty e |}.

(** The same device, raising error 700 ([cudaErrorIllegalAddress]) while it
    runs the kernel. *)
Definition faulty_device : Env :=
  {| device_fault := 700;
     schedule := reverse;
     uninitialised := λ _ _, S754_nan;
     clock := λ k, 1500000 * Z.of_nat k;
     cudaGetErrorString := λ e, "error " +:+ pretty e |}.

(** Device memory with three buffers, at the device pointers 0, 1 and 2. *)
Definition three_buffers {F : Type} (a b c : list F) : gmap nat (list F) :=
  <[2%nat := c]> (<[1%nat := b]> (<[0%nat := a]> ∅)).

(** A length that [size_t] holds and [int] does not: 2^31. *)
Definition huge : nat := Z.to_nat 2147483648.

(** ** Ceiling of a quotient *)

(** [g] is the ceiling of [n / d]: the least integer with [n ≤ g * d]. *)
Definition is_ceiling (n d g : Z) : Prop := (g - 1) * d < n ≤ g * d.

(** ** Single precision numbers as bit patterns *)

(** The mathematical value of an addition is the same on every processor
    that follows IEEE 754; the bit pattern of a NaN result is not. This
    module reads binary32 values off their 32 bits and gives the addition
    of the host (x86-64 [addss]) and of the device (CUDA) on bit
    patterns. *)
Module Binary32.

(** The three fields of a bit pattern. *)
Definition sign_bit (w : Z) : bool := 2147483648 <=? w.
Definition exponent (w : Z) : Z := (w `div` 8388608) `mod` 256.
Definition mantissa (w : Z) : Z := w `mod` 8388608.

(** The value that a bit pattern stands for. *)
Definition decode (w : Z) : f32 :=
  if exponent w =? 255 then
    if mantissa w =? 0 then S754_infinity (sign_bit w) else S754_nan
  else if exponent w =? 0 then
    match mantissa w with
    | Zpos m => S754_finite (sign_bit w) m (-149)
    | _ => S754_zero (sign_bit w)
    end
  else
    match mantissa w + 8388608 with
    | Zpos m => S754_finite (sign_bit w) m (exponent w - 150)
    | _ => S754_nan
    end.

Definition sign_field (s : bool) : Z := if s then 2147483648 else 0.

(** The bit pattern of a value with a canonical mantissa; a NaN, which has
    many patterns, is given the pattern [0x7FC00000]. *)
Definition encode (x : f32) : Z :=
  match x with
  | S754_zero s => sign_field s
  | S754_infinity s => sign_field s + 2139095040
  | S754_nan => 2143289344
  | S754_finite s m e =>
      if Zpos m <? 8388608 then sign_field s + Zpos m
      else sign_field s + (e + 150) * 8388608 + (Zpos m - 8388608)
  end.

Definition is_nan (w : Z) : bool :=
  (exponent w =? 255) && negb (mantissa w =? 0).

(** A NaN with its quiet bit (bit 22) set. *)
Definition quiet (w : Z) : Z :=
  if mantissa w <? 4194304 then w + 4194304 else w.

(** [x + y] on the host: a NaN operand is returned, quieted, the first
    one if both are; an invalid addition (of two infinities of opposite
    signs) gives the default NaN [0xFFC00000]. *)
Definition host_add (x y : Z) : Z :=
  match Float32.add (decode x) (decode y) with
  | S754_nan =>
      if is_nan x then quiet x
      else if is_nan y then quiet y
      else 4290772992
  | r => encode r
  end.

(** [x + y] on the device: every NaN result is the canonical NaN
    [0x7FFFFFFF]. *)
Definition device_add (x y : Z) : Z :=
  match Float32.add (decode x) (decode y) with
  | S754_nan => 2147483647
  | r => encode r
  end.

(** The bit patterns of [1.0f], [2.0f] and [3.0f], and of the quiet NaN
    that [std::numeric_limits<float>::quiet_NaN()] gives on the host. *)
Definition one : Z := 1065353216.
Definition two : Z := 1073741824.
Definition three : Z := 1077936128.
Definition host_quiet_nan : Z := 2143289344.
Definition device_nan : Z := 2147483647.

End Binary32.

(** ** The two programs in two stages *)

Module Stages.

(** The declarations [std::vector<float> h_a(size, 1.0f);],
    [h_b(size, 2.0f);] and [h_c(size);] with which both programs start:
    the three host vectors as they are before anything else runs. The
    third is value-initialised. *)
Definition host_vectors (size : Z) : list f32 * list f32 * list f32 :=
  (vector size Float32.one, vector size Float32.two, vector size Float32.zero).

(** The rest of [main] of the sequential program, from the first clock
    reading on, for host vectors [h_a], [h_b] and [h_c]. *)
Definition sequential_run (env : Env) (v : list f32 * list f32 * list f32)
    : Prog (Z * list f32) :=
  let '(h_a, h_b, h_c) := v in
  start_time ← now env;
  h_c ← defined (vectorAddSequential Float32.add h_a h_b h_c);
  end_time ← now env;
  let duration := milliseconds (end_time - start_time) in
  cout ("Sequential Vector Addition took " +:+ pretty duration
          +:+ " milliseconds." +:+ newline);;
  mret (0, h_c).

(** The rest of [main] of the parallel program, from the allocations
    on. *)
Definition parallel_run (env : Env) (size : Z)
    (v : list f32 * list f32 * list f32) : Prog (Z * list f32) :=
  let '(h_a, h_b, h_c) := v in
  let size_bytes := Int.to_size_t (Int.to_size_t size * sizeof_float) in
  d_a ← cudaMalloc env size_bytes;
  d_b ← cudaMalloc env size_bytes;
  d_c ← cudaMalloc env size_bytes;
  cudaMemcpyHostToDevice d_a h_a size_bytes;;
  cudaMemcpyHostToDevice d_b h_b size_bytes;;
  let gridSize := Int.to_uint (Parallel.num_blocks size) in
  let blockSize := Int.to_uint 256 in
  start_time ← now env;
  launch env gridSize blockSize (vectorAddParallel Float32.add d_a d_b d_c size);;
  cudaDeviceSynchronize env;;
  cudaError ← cudaGetLastError;
  if bool_decide (cudaError ≠ cudaSuccess) then
    cerr ("CUDA error: " +:+ cudaGetErrorString env cudaError +:+ newline);;
    mret (1, h_c)
  else
    h_c ← cudaMemcpyDeviceToHost h_c d_c size_bytes;
    end_time ← now env;
    let duration := milliseconds (end_time - start_time) in
    cout ("Parallel Vector Addition took " +:+ pretty duration
            +:+ " milliseconds." +:+ newline);;
    cudaFree d_a;;
    cudaFree d_b;;
    cudaFree d_c;;
    mret (0, h_c).

End Stages.

(** * Properties *)

(** ** Machine integers *)

Lemma to_int_range z : Int.INT_MIN ≤ Int.to_int z ≤ Int.INT_MAX.
Proof.
  unfold Int.to_int, Int.to_uint, Int.INT_MIN, Int.INT_MAX.
  pose proof (Z.mod_pos_bound z 4294967296 eq_refl).
  destruct (Z.ltb_spec (z mod 4294967296) 2147483648); lia.
Qed.

Lemma to_uint_small z : 0 ≤ z < 4294967296 → Int.to_uint z = z.
Proof. intros H. unfold Int.to_uint. by apply Z.mod_small. Qed.

Lemma to_int_small z : Int.INT_MIN ≤ z ≤ Int.INT_MAX → Int.to_int z = z.
Proof.
  unfold Int.to_int, Int.to_uint, Int.INT_MIN, Int.INT_MAX. intros H.
  destruct (Z_lt_le_dec z 0) as [Hneg | Hpos].
  - replace (z mod 4294967296) with (z + 4294967296).
    + destruct (Z.ltb_spec (z + 4294967296) 2147483648); lia.
    + apply Z.mod_unique with (q := -1); lia.
  - rewrite Z.mod_small by lia.
    destruct (Z.ltb_spec z 2147483648); lia.
Qed.

Lemma to_size_t_small z :
  0 ≤ z < 18446744073709551616 → Int.to_size_t z = z.
Proof. intros H. unfold Int.to_size_t. by apply Z.mod_small. Qed.

Lemma int_add_small x y :
  Int.INT_MIN ≤ x + y ≤ Int.INT_MAX → Int.add x y = x + y.
Proof. apply to_int_small. Qed.

(** A [size_t] that does not fit [int] is narrowed to another number. *)
Lemma to_int_wraps z :
  2147483648 ≤ z < 4294967296 → Int.to_int z = z - 4294967296.
Proof.
  intros H. unfold Int.to_int, Int.to_uint.
  rewrite Z.mod_small by lia.
  destruct (Z.ltb_spec z 2147483648); lia.
Qed.

(** ** The sequential adder *)

Section SequentialFacts.

Context {F : Type} (fadd : F → F → F).

Lemma vec_get_lookup (v : list F) (i : Z) :
  0 ≤ i → vec_get v i = v !! Z.to_nat i.
Proof. intros H. unfold vec_get. by rewrite bool_decide_true. Qed.

Lemma vec_set_insert (v : list F) (i : Z) (x : F) :
  0 ≤ i < Z.of_nat (length v) → vec_set v i x = Some (<[Z.to_nat i := x]> v).
Proof. intros H. unfold vec_set. by rewrite bool_decide_true. Qed.

(** One iteration inside of the three vectors writes the sum at [i]. *)
Lemma seq_body_in_range (a b c : list F) (i : Z) :
  0 ≤ i → i < Z.of_nat (length a) → i < Z.of_nat (length b) →
  i < Z.of_nat (length c) →
  ∃ v, sum_at fadd a b (Z.to_nat i) = Some v ∧
       seq_body fadd a b i c = Some (<[Z.to_nat i := v]> c).
Proof.
  intros Hi Ha Hb Hc.
  destruct (lookup_lt_is_Some_2 a (Z.to_nat i)) as [x Hx]; [lia |].
  destruct (lookup_lt_is_Some_2 b (Z.to_nat i)) as [y Hy]; [lia |].
  exists (fadd x y). unfold sum_at, seq_body.
  rewrite !vec_get_lookup, Hx, Hy by done. simpl.
  split; [done |]. apply vec_set_insert. lia.
Qed.

(** The loop from [i] to [n], with enough fuel: the elements from [i] up to
    [n] receive the sums and every other element keeps its value. *)
Lemma for_lt_seq_body (a b : list F) (n : Z) :
  n ≤ Int.INT_MAX → n ≤ Z.of_nat (length a) → n ≤ Z.of_nat (length b) →
  ∀ (fuel : nat) (i : Z) (c : list F),
    0 ≤ i → n ≤ Z.of_nat (length c) → (Z.to_nat (n - i) ≤ fuel)%nat →
    ∃ c', for_lt fuel i n (seq_body fadd a b) c = Some c' ∧
          length c' = length c ∧
          ∀ j : nat, c' !! j =
            if bool_decide (i ≤ Z.of_nat j < n) then sum_at fadd a b j else c !! j.
Proof.
  intros Hmax Ha Hb fuel.
  induction fuel as [| fuel IH]; intros i c Hi Hc Hfuel; simpl.
  - destruct (Z.ltb_spec i n) as [Hlt | Hge]; [lia |].
    exists c. split_and!; [done ..|]. intros j.
    rewrite bool_decide_false by lia. done.
  - destruct (Z.ltb_spec i n) as [Hlt | Hge].
    + destruct (seq_body_in_range a b c i) as (v & Hv & ->); [lia ..|].
      simpl. rewrite int_add_small by (unfold Int.INT_MIN, Int.INT_MAX in *; lia).
      destruct (IH (i + 1) (<[Z.to_nat i := v]> c)) as (c' & -> & Hlen & Hc');
        [lia | rewrite length_insert; lia | lia |].
      exists c'. split_and!; [done | by rewrite Hlen, length_insert |].
      intros j. rewrite Hc'.
      destruct (decide (j = Z.to_nat i)) as [-> | Hne].
      * rewrite bool_decide_false by lia.
        rewrite bool_decide_true by lia.
        rewrite list_lookup_insert_eq by lia. done.
      * rewrite list_lookup_insert_ne by done.
        destruct (decide (i + 1 ≤ Z.of_nat j < n)).
        -- rewrite !bool_decide_true by lia. done.
        -- rewrite !bool_decide_false by lia. done.
    + exists c. split_and!; [done ..|]. intros j.
      rewrite bool_decide_false by lia. done.
Qed.

(** A list that agrees with the sums below [k] and with [c] from [k] on. *)
Lemma sums_then_rest (a b c c' : list F) (k : nat) :
  (k ≤ length a)%nat → (k ≤ length b)%nat → (k ≤ length c)%nat →
  length c' = length c →
  (∀ j : nat, c' !! j =
     if bool_decide (j < k)%nat then sum_at fadd a b j else c !! j) →
  c' = zip_with fadd (take k a) (take k b) ++ drop k c.
Proof.
  intros Ha Hb Hc Hlen Hpt. apply list_eq. intros j. rewrite Hpt.
  assert (Hzl : length (zip_with fadd (take k a) (take k b)) = k).
  { rewrite length_zip_with, !length_take. lia. }
  destruct (decide (j < k)%nat) as [Hlt | Hge].
  - rewrite bool_decide_true by done.
    rewrite lookup_app_l by lia.
    rewrite lookup_zip_with, !lookup_take_lt by done.
    unfold sum_at. destruct (a !! j); [| done]. simpl.
    destruct (b !! j); done.
  - rewrite bool_decide_false by done.
    rewrite lookup_app_r by lia. rewrite Hzl, lookup_drop.
    f_equal. lia.
Qed.

(** The narrowed length never exceeds the length. *)
Lemma seq_iterations_le (a : list F) : (seq_iterations a ≤ length a)%nat.
Proof.
  unfold seq_iterations, seq_n, Int.to_int, Int.to_uint.
  pose proof (Z.mod_pos_bound (Z.of_nat (length a)) 4294967296 eq_refl).
  pose proof (Z.mod_le (Z.of_nat (length a)) 4294967296 ltac:(lia) eq_refl).
  destruct (Z.ltb_spec (Z.of_nat (length a) mod 4294967296) 2147483648); lia.
Qed.

(** What the sequential adder computes, for vectors of any lengths: with
    [k] the number of iterations, the first [k] elements of [c] receive the
    sums and the others keep their values. *)
Lemma vectorAddSequential_spec (a b c : list F) :
  (seq_iterations a ≤ length b)%nat → (seq_iterations a ≤ length c)%nat →
  vectorAddSequential fadd a b c =
    Some (zip_with fadd (take (seq_iterations a) a) (take (seq_iterations a) b)
            ++ drop (seq_iterations a) c).
Proof.
  intros Hb Hc. pose proof (seq_iterations_le a) as Ha.
  unfold vectorAddSequential.
  destruct (Z_lt_le_dec (seq_n a) 0) as [Hneg | Hpos].
  - assert (Hk : seq_iterations a = 0%nat) by (unfold seq_iterations; lia).
    rewrite Hk. simpl. destruct (Z.ltb_spec 0 (seq_n a)); [lia | done].
  - pose proof (to_int_range (Z.of_nat (length a))) as Hr. fold (seq_n a) in Hr.
    assert (Hk : Z.of_nat (seq_iterations a) = seq_n a)
      by (unfold seq_iterations; lia).
    destruct (for_lt_seq_body a b (seq_n a)) with
      (fuel := seq_iterations a) (i := 0) (c := c)
      as (c' & -> & Hlen & Hc'); [lia ..|].
    f_equal. apply sums_then_rest; [done ..|].
    intros j. rewrite Hc'.
    destruct (decide (j < seq_iterations a)%nat).
    + rewrite !bool_decide_true by lia. done.
    + rewrite !bool_decide_false by lia. done.
Qed.

(** A vector that fits [int] is traversed whole. *)
Lemma seq_iterations_fits (a : list F) :
  Z.of_nat (length a) ≤ Int.INT_MAX → seq_iterations a = length a.
Proof.
  intros H. unfold seq_iterations, seq_n.
  rewrite to_int_small by (unfold Int.INT_MIN; lia). lia.
Qed.

End SequentialFacts.

(** ** The kernel *)

Section KernelFacts.

Context {F : Type} (fadd : F → F → F).

(** The global index of a unit of a grid whose units number at most 2^31
    is computed without wrap-around. *)
Lemma global_index_small (blockDim blockIdx threadIdx : Z) :
  0 ≤ threadIdx → 0 ≤ blockDim * blockIdx →
  threadIdx + blockDim * blockIdx ≤ Int.INT_MAX →
  global_index blockDim blockIdx threadIdx = threadIdx + blockDim * blockIdx.
Proof.
  unfold global_index, Int.INT_MAX. intros Ht Hb Hmax.
  rewrite (to_uint_small (blockDim * blockIdx)) by lia.
  rewrite to_uint_small by lia.
  apply to_int_small. unfold Int.INT_MIN, Int.INT_MAX. lia.
Qed.

(** A unit whose index is not below [n] leaves device memory as it is. *)
Lemma vectorAddParallel_guard (a b c : nat) (n blockDim bid tid : Z)
    (h : gmap nat (list F)) :
  n ≤ global_index blockDim bid tid →
  vectorAddParallel fadd a b c n blockDim bid tid h = Some h.
Proof.
  intros H. unfold vectorAddParallel.
  destruct (Z.ltb_spec (global_index blockDim bid tid) n); [lia | done].
Qed.

(** A unit whose index is inside of the three buffers writes the sum at
    its index of the output buffer, and nothing else. *)
Lemma vectorAddParallel_write (a b c : nat) (n blockDim bid tid : Z)
    (h : gmap nat (list F)) (la lb lc : list F) :
  h !! a = Some la → h !! b = Some lb → h !! c = Some lc →
  n ≤ Z.of_nat (length la) → n ≤ Z.of_nat (length lb) →
  n ≤ Z.of_nat (length lc) →
  0 ≤ global_index blockDim bid tid < n →
  ∃ v, sum_at fadd la lb (Z.to_nat (global_index blockDim bid tid)) = Some v ∧
       vectorAddParallel fadd a b c n blockDim bid tid h =
         Some (<[c := <[Z.to_nat (global_index blockDim bid tid) := v]> lc]> h).
Proof.
  intros Ha Hb Hc Hla Hlb Hlc Hi. unfold vectorAddParallel.
  set (i := global_index blockDim bid tid) in *.
  destruct (Z.ltb_spec i n) as [_ |]; [| lia].
  destruct (lookup_lt_is_Some_2 la (Z.to_nat i)) as [x Hx]; [lia |].
  destruct (lookup_lt_is_Some_2 lb (Z.to_nat i)) as [y Hy]; [lia |].
  exists (fadd x y). unfold sum_at, dev_load, dev_store.
  rewrite Ha, Hb, Hc, Hx, Hy. simpl.
  rewrite !vec_get_lookup, Hx, Hy by lia. simpl.
  rewrite vec_set_insert by lia. done.
Qed.

(** Running units in any order, with inputs that the output buffer does not
    alias: no access leaves a buffer, only the output buffer changes, each
    of its elements is either untouched or holds the sum of the inputs at
    its index, and the index of every unit that passed the guard holds that
    sum. *)
Lemma run_threads_vectorAdd (a b c : nat) (n blockDim : Z) (la lb : list F) :
  a ≠ c → b ≠ c →
  n ≤ Z.of_nat (length la) → n ≤ Z.of_nat (length lb) →
  ∀ (ts : list (Z * Z)) (h : gmap nat (list F)) (lc : list F),
    h !! a = Some la → h !! b = Some lb → h !! c = Some lc →
    n ≤ Z.of_nat (length lc) →
    (∀ t, t ∈ ts → 0 ≤ global_index blockDim t.1 t.2) →
    ∃ lc', run_threads (vectorAddParallel fadd a b c n blockDim) ts h
             = Some (<[c := lc']> h) ∧
           length lc' = length lc ∧
           (∀ j : nat, lc' !! j = lc !! j ∨
              (Z.of_nat j < n ∧ lc' !! j = sum_at fadd la lb j)) ∧
           (∀ t, t ∈ ts → global_index blockDim t.1 t.2 < n →
              lc' !! Z.to_nat (global_index blockDim t.1 t.2)
                = sum_at fadd la lb (Z.to_nat (global_index blockDim t.1 t.2))).
Proof.
  intros Hac Hbc Hla Hlb ts.
  induction ts as [| [bid tid] ts IH]; intros h lc Ha Hb Hc Hlc Hpos; simpl.
  - exists lc. split_and!.
    + by rewrite insert_id.
    + done.
    + intros j. by left.
    + intros t Ht. by apply elem_of_nil in Ht.
  - set (i := global_index blockDim bid tid).
    assert (Hi0 : 0 ≤ i) by (apply (Hpos (bid, tid)); left).
    assert (Hrest : ∀ t, t ∈ ts → 0 ≤ global_index blockDim t.1 t.2)
      by (intros t Ht; apply Hpos; by right).
    destruct (Z_lt_le_dec i n) as [Hlt | Hge].
    + destruct (vectorAddParallel_write a b c n blockDim bid tid h la lb lc)
        as (v & Hv & ->); [done .. | fold i; lia |].
      fold i in Hv |- *. simpl.
      destruct (IH (<[c := <[Z.to_nat i := v]> lc]> h) (<[Z.to_nat i := v]> lc))
        as (lc' & -> & Hlen & Hany & Hcov).
      { by rewrite lookup_insert_ne. }
      { by rewrite lookup_insert_ne. }
      { by rewrite lookup_insert_eq. }
      { rewrite length_insert. lia. }
      { done. }
      assert (Hself : lc' !! Z.to_nat i = sum_at fadd la lb (Z.to_nat i)).
      { destruct (Hany (Z.to_nat i)) as [-> | [_ ->]]; [| done].
        rewrite list_lookup_insert_eq by lia. done. }
      exists lc'. split_and!.
      * by rewrite insert_insert_eq.
      * by rewrite Hlen, length_insert.
      * intros j. destruct (decide (j = Z.to_nat i)) as [-> | Hne].
        -- right. split; [lia | done].
        -- destruct (Hany j) as [Hj | Hj]; [| by right].
           left. rewrite Hj. by rewrite list_lookup_insert_ne.
      * intros t Ht Htn. apply elem_of_cons in Ht as [-> | Ht]; [done |].
        by apply Hcov.
    + rewrite vectorAddParallel_guard by (fold i; lia). simpl.
      destruct (IH h lc) as (lc' & -> & Hlen & Hany & Hcov); [done ..|].
      exists lc'. split_and!; [done .. |].
      intros t Ht Htn. apply elem_of_cons in Ht as [-> | Ht].
      * simpl in Htn. fold i in Htn. lia.
      * by apply Hcov.
Qed.

(** The units of a grid, by their coordinates. *)
Lemma elem_of_grid_threads (gridDim blockDim bid tid : Z) :
  (bid, tid) ∈ grid_threads gridDim blockDim ↔
  0 ≤ bid < gridDim ∧ 0 ≤ tid < blockDim.
Proof.
  unfold grid_threads. rewrite list_elem_of_bind. split.
  - intros (bid' & Hin & Hbid). apply elem_of_seqZ in Hbid.
    apply list_elem_of_bind in Hin as (tid' & Hin & Htid).
    apply elem_of_seqZ in Htid. apply list_elem_of_singleton in Hin.
    inversion Hin; subst. lia.
  - intros [Hb Ht]. exists bid. split; [| apply elem_of_seqZ; lia].
    apply list_elem_of_bind. exists tid.
    split; [by apply list_elem_of_singleton | apply elem_of_seqZ; lia].
Qed.

(** A whole grid that covers the index range [0, n), run in any order that
    contains each unit: the output buffer ends as the element-wise sum of
    the inputs. *)
Lemma run_grid_vectorAdd (a b c : nat) (gridDim blockDim : Z)
    (ts : list (Z * Z)) (h : gmap nat (list F)) (la lb lc : list F) :
  a ≠ c → b ≠ c →
  h !! a = Some la → h !! b = Some lb → h !! c = Some lc →
  length la = length lc → length lb = length lc →
  0 < blockDim → 0 ≤ gridDim →
  Z.of_nat (length lc) ≤ gridDim * blockDim →
  gridDim * blockDim ≤ Int.INT_MAX + 1 →
  ts ≡ₚ grid_threads gridDim blockDim →
  run_threads (vectorAddParallel fadd a b c (Z.of_nat (length lc)) blockDim) ts h
    = Some (<[c := zip_with fadd la lb]> h).
Proof.
  intros Hac Hbc Ha Hb Hc Hla Hlb Hbd Hgd Hcover Hmax Hperm.
  assert (Hidx : ∀ bid tid, (bid, tid) ∈ ts →
            global_index blockDim bid tid = tid + blockDim * bid ∧
            0 ≤ bid < gridDim ∧ 0 ≤ tid < blockDim).
  { intros bid tid Ht. rewrite Hperm in Ht.
    apply elem_of_grid_threads in Ht. split; [| done].
    apply global_index_small; [lia | nia |]. unfold Int.INT_MAX in *. nia. }
  destruct (run_threads_vectorAdd a b c (Z.of_nat (length lc)) blockDim la lb
              Hac Hbc ltac:(lia) ltac:(lia) ts h lc Ha Hb Hc ltac:(lia))
    as (lc' & -> & Hlen & _ & Hcov).
  { intros [bid tid] Ht. simpl. destruct (Hidx bid tid Ht) as [-> ?]. nia. }
  do 2 f_equal.
  rewrite (sums_then_rest fadd la lb lc lc' (length lc)); [| lia .. | done |].
  { rewrite drop_all, app_nil_r, <- Hla, take_ge by lia.
    rewrite Hla, <- Hlb, take_ge by lia. done. }
  intros j. destruct (decide (j < length lc)%nat) as [Hj | Hj].
  - rewrite bool_decide_true by done.
    pose (bid := Z.of_nat j `div` blockDim).
    pose (tid := Z.of_nat j `mod` blockDim).
    pose proof (Z.div_mod (Z.of_nat j) blockDim ltac:(lia)) as Hdm.
    pose proof (Z.mod_pos_bound (Z.of_nat j) blockDim Hbd) as Hmod.
    pose proof (Z.div_pos (Z.of_nat j) blockDim ltac:(lia) Hbd) as Hdiv.
    assert (Hin : (bid, tid) ∈ ts).
    { rewrite Hperm. apply elem_of_grid_threads. subst bid tid.
      split; [| lia]. split; [lia |].
      apply Z.div_lt_upper_bound; lia. }
    destruct (Hidx bid tid Hin) as [Hgi _].
    specialize (Hcov (bid, tid) Hin). simpl in Hcov. rewrite Hgi in Hcov.
    replace (tid + blockDim * bid) with (Z.of_nat j) in Hcov by (subst bid tid; lia).
    rewrite Nat2Z.id in Hcov. apply Hcov. lia.
  - rewrite bool_decide_false by done.
    rewrite !lookup_ge_None_2 by lia. done.
Qed.

End KernelFacts.

(** ** The two programs

    Sequencing in [Prog], unfolded. *)
Lemma bind_unfold {A B} (p : Prog A) (f : A → Prog B) (m : Machine) :
  (p ≫= f) m = match p m with Some (x, m') => f x m' | None => None end.
Proof. reflexivity. Qed.

(** [(size + 255) / 256] where the sum fits [int]. *)
Lemma num_blocks_small size :
  0 ≤ size ≤ Int.INT_MAX - 255 → Parallel.num_blocks size = (size + 255) `quot` 256.
Proof.
  unfold Int.INT_MAX. intros H. unfold Parallel.num_blocks, Int.div.
  rewrite int_add_small by (unfold Int.INT_MIN, Int.INT_MAX; lia).
  apply to_int_small. unfold Int.INT_MIN, Int.INT_MAX.
  Z.to_euclidean_division_equations. lia.
Qed.

(** [(size + 255) / 256] where the sum wraps around. *)
Lemma num_blocks_wraps size :
  Int.INT_MAX - 255 < size ≤ Int.INT_MAX → Parallel.num_blocks size = (size + 255 - 4294967296) `quot` 256.
Proof.
  unfold Int.INT_MAX. intros H. unfold Parallel.num_blocks, Int.div, Int.add.
  rewrite (to_int_wraps (size + 255)) by lia.
  apply to_int_small. unfold Int.INT_MIN, Int.INT_MAX.
  Z.to_euclidean_division_equations. lia.
Qed.

(** Runs the calls at the head of a program that need no side condition. *)
Ltac run_prog :=
  cbn [mbind mret prog_bind prog_ret option_bind
       cudaMalloc cudaMemcpyHostToDevice cudaMemcpyDeviceToHost cudaFree now
       launch cudaDeviceSynchronize cudaGetLastError cout cerr
       emit set_heap set_last_error
       heap next_ptr last_error clock_reads stdout stderr trace].

(** The calls that depend on the state, as equations. *)
Lemma step_memcpy_h2d (dst : nat) (src buf : list f32) (bytes : Z) (m : Machine) :
  heap m !! dst = Some buf →
  (Z.to_nat (bytes `quot` sizeof_float) ≤ length src)%nat →
  (Z.to_nat (bytes `quot` sizeof_float) ≤ length buf)%nat →
  cudaMemcpyHostToDevice dst src bytes m =
    Some (tt, emit (EvMemcpyHostToDevice dst bytes)
      (set_heap (<[dst := take (Z.to_nat (bytes `quot` sizeof_float)) src
                          ++ drop (Z.to_nat (bytes `quot` sizeof_float)) buf]> (heap m)) m)).
Proof.
  intros Hbuf Hs Hb. unfold cudaMemcpyHostToDevice. rewrite Hbuf. simpl.
  rewrite bool_decide_true by done. done.
Qed.

Lemma step_memcpy_d2h (dst : list f32) (src : nat) (buf : list f32) (bytes : Z) (m : Machine) :
  heap m !! src = Some buf →
  (Z.to_nat (bytes `quot` sizeof_float) ≤ length buf)%nat →
  (Z.to_nat (bytes `quot` sizeof_float) ≤ length dst)%nat →
  cudaMemcpyDeviceToHost dst src bytes m =
    Some (take (Z.to_nat (bytes `quot` sizeof_float)) buf
            ++ drop (Z.to_nat (bytes `quot` sizeof_float)) dst,
          emit (EvMemcpyDeviceToHost src bytes) m).
Proof.
  intros Hbuf Hb Hd. unfold cudaMemcpyDeviceToHost. rewrite Hbuf. simpl.
  rewrite bool_decide_true by done. done.
Qed.

Lemma step_launch_valid (env : Env) (g bd : Z)
    (kernel : Z → Z → Z → gmap nat (list f32) → option (gmap nat (list f32)))
    (m : Machine) (h' : gmap nat (list f32)) :
  valid_launch g bd = true →
  run_threads (kernel bd) (schedule env (grid_threads g bd)) (heap m) = Some h' →
  launch env g bd kernel m = Some (tt, set_heap h' (emit (EvLaunch g bd) m)).
Proof. intros Hv Hrun. unfold launch. rewrite Hv. simpl. rewrite Hrun. done. Qed.

Lemma step_launch_invalid (env : Env) (g bd : Z)
    (kernel : Z → Z → Z → gmap nat (list f32) → option (gmap nat (list f32)))
    (m : Machine) :
  valid_launch g bd = false →
  launch env g bd kernel m =
    Some (tt, set_last_error cudaErrorInvalidConfiguration (emit (EvLaunch g bd) m)).
Proof. intros Hv. unfold launch. rewrite Hv. done. Qed.

Lemma step_synchronize (env : Env) (m : Machine) :
  cudaDeviceSynchronize env m =
    Some (tt, set_last_error
                (if bool_decide (last_error m = cudaSuccess) then device_fault env
                 else last_error m)
                (emit EvDeviceSynchronize m)).
Proof.
  unfold cudaDeviceSynchronize. cbn [emit last_error].
  destruct m as [h p e k o r t]. cbn [last_error].
  destruct (decide (e = cudaSuccess)) as [He | He],
           (decide (device_fault env = cudaSuccess)) as [Hf | Hf].
  - rewrite bool_decide_false by (intros [_ ?]; done).
    rewrite bool_decide_true by done. rewrite Hf, <- He. done.
  - rewrite !bool_decide_true by done. done.
  - rewrite !bool_decide_false by (try intros [? _]; done). done.
  - rewrite !bool_decide_false by (try intros [? _]; done). done.
Qed.

(** [size_bytes / sizeof(float)] is [size] again. *)
Lemma bytes_elems (size : Z) :
  0 ≤ size → Z.to_nat ((size * sizeof_float) `quot` sizeof_float) = Z.to_nat size.
Proof. intros H. unfold sizeof_float. rewrite Z.quot_mul by lia. done. Qed.

(** Copying a whole vector over a buffer of its length. *)
Lemma fill_buffer (n : nat) (x : f32) (buf : list f32) :
  length buf = n → take n (replicate n x) ++ drop n buf = replicate n x.
Proof.
  intros H. rewrite take_ge by (rewrite length_replicate; lia).
  rewrite drop_ge by lia. apply app_nil_r.
Qed.

(** The launch of [main_with] is accepted exactly for sizes from 1 to
    [INT_MAX - 255]. *)
Lemma valid_launch_range (size : Z) :
  0 ≤ size ≤ Int.INT_MAX →
  valid_launch (Int.to_uint (Parallel.num_blocks size)) (Int.to_uint 256) = true →
  1 ≤ size ≤ Int.INT_MAX - 255.
Proof.
  intros Hsize Hv. unfold valid_launch in Hv. apply bool_decide_eq_true in Hv.
  destruct Hv as [Hg _].
  destruct (Z_le_gt_dec size (Int.INT_MAX - 255)) as [Hle | Hgt].
  - split; [| done]. destruct (Z_le_gt_dec 1 size); [done |].
    assert (size = 0) as -> by lia. vm_compute in Hg. destruct Hg as [Hg _]. done.
  - exfalso. rewrite num_blocks_wraps in Hg by lia.
    unfold Int.to_uint, Int.INT_MAX in *.
    Z.to_euclidean_division_equations. lia.
Qed.

Lemma valid_launch_in_range (size : Z) :
  1 ≤ size ≤ Int.INT_MAX - 255 →
  valid_launch (Int.to_uint (Parallel.num_blocks size)) (Int.to_uint 256) = true.
Proof.
  intros Hsize. unfold valid_launch. apply bool_decide_eq_true.
  rewrite num_blocks_small by lia.
  unfold Int.to_uint, Int.INT_MAX in *.
  Z.to_euclidean_division_equations. lia.
Qed.

(** The run of the parallel program from the initial state, on both of its
    paths: the final state, the exit status and [h_c]. On the error path
    the three device buffers are still allocated. The order in which the
    device runs the units matters only when the launch is accepted. *)
Lemma parallel_main_run (env : Env) (size : Z) :
  (valid_launch (Int.to_uint (Parallel.num_blocks size)) (Int.to_uint 256) = true →
   fair env) →
  0 ≤ size ≤ Int.INT_MAX →
  ∃ h : gmap nat (list f32),
    dom h = {[0%nat; 1%nat; 2%nat]} ∧
    (∀ p buf, h !! p = Some buf → length buf = Z.to_nat size) ∧
    Parallel.main_with env size initial = Some (
      if bool_decide (Parallel.launch_error env size ≠ cudaSuccess) then
        ((1, replicate (Z.to_nat size) Float32.zero),
         {| heap := h; next_ptr := 3; last_error := cudaSuccess; clock_reads := 1;
            stdout := EmptyString;
            stderr := "CUDA error: " +:+
              cudaGetErrorString env (Parallel.launch_error env size) +:+ newline;
            trace := [EvMalloc 0 (size * sizeof_float); EvMalloc 1 (size * sizeof_float); EvMalloc 2 (size * sizeof_float);
                      EvMemcpyHostToDevice 0 (size * sizeof_float); EvMemcpyHostToDevice 1 (size * sizeof_float);
                      EvNow (clock env 0);
                      EvLaunch (Int.to_uint (Parallel.num_blocks size)) (Int.to_uint 256);
                      EvDeviceSynchronize;
                      EvGetLastError (Parallel.launch_error env size);
                      EvCerr ("CUDA error: " +:+
                        cudaGetErrorString env (Parallel.launch_error env size) +:+ newline)] |})
      else
        ((0, replicate (Z.to_nat size) Float32.three),
         {| heap := ∅; next_ptr := 3; last_error := cudaSuccess; clock_reads := 2;
            stdout := "Parallel Vector Addition took " +:+
              pretty (milliseconds (clock env 1 - clock env 0)) +:+
              " milliseconds." +:+ newline;
            stderr := EmptyString;
            trace := [EvMalloc 0 (size * sizeof_float); EvMalloc 1 (size * sizeof_float); EvMalloc 2 (size * sizeof_float);
                      EvMemcpyHostToDevice 0 (size * sizeof_float); EvMemcpyHostToDevice 1 (size * sizeof_float);
                      EvNow (clock env 0);
                      EvLaunch (Int.to_uint (Parallel.num_blocks size)) (Int.to_uint 256);
                      EvDeviceSynchronize;
                      EvGetLastError cudaSuccess;
                      EvMemcpyDeviceToHost 2 (size * sizeof_float);
                      EvNow (clock env 1);
                      EvCout ("Parallel Vector Addition took " +:+
                        pretty (milliseconds (clock env 1 - clock env 0)) +:+
                        " milliseconds." +:+ newline);
                      EvFree 0; EvFree 1; EvFree 2] |})).
Proof.
  intros Hfair Hsize.
  unfold Parallel.main_with.
  rewrite (to_size_t_small size) by (unfold Int.INT_MAX in *; lia).
  rewrite to_size_t_small by (unfold sizeof_float, Int.INT_MAX in *; lia).
  unfold initial, vector.
  set (n := Z.to_nat size).
  set (bytes := size * sizeof_float).
  assert (Hk : Z.to_nat (bytes `quot` sizeof_float) = n) by (apply bytes_elems; lia).
  assert (Hn : Z.of_nat n = size) by (subst n; lia).
  repeat (rewrite bind_unfold; run_prog).
  rewrite Hk.
  erewrite step_memcpy_h2d; cycle 1.
  { run_prog. rewrite !lookup_insert_ne by done. apply lookup_insert_eq. }
  { rewrite Hk, length_replicate. done. }
  { rewrite Hk, length_fmap, length_seq. done. }
  rewrite Hk, fill_buffer by (by rewrite length_fmap, length_seq).
  run_prog. rewrite bind_unfold.
  erewrite step_memcpy_h2d; cycle 1.
  { run_prog. rewrite !lookup_insert_ne by done. apply lookup_insert_eq. }
  { rewrite Hk, length_replicate. done. }
  { rewrite Hk, length_fmap, length_seq. done. }
  rewrite Hk, fill_buffer by (by rewrite length_fmap, length_seq).
  run_prog. rewrite bind_unfold. run_prog. rewrite bind_unfold.
  set (U0 := uninitialised env 0 <$> seq 0 n).
  set (U1 := uninitialised env 1 <$> seq 0 n).
  set (U2 := uninitialised env 2 <$> seq 0 n).
  assert (HU2 : length U2 = n) by (subst U2; by rewrite length_fmap, length_seq).
  set (h0 := <[1%nat:=replicate n Float32.two]> _).
  assert (Hh0a : h0 !! 0%nat = Some (replicate n Float32.one)).
  { subst h0. rewrite lookup_insert_ne by done. apply lookup_insert_eq. }
  assert (Hh0b : h0 !! 1%nat = Some (replicate n Float32.two)).
  { subst h0. apply lookup_insert_eq. }
  assert (Hh0c : h0 !! 2%nat = Some U2).
  { subst h0. rewrite !lookup_insert_ne by done. apply lookup_insert_eq. }
  assert (Hdom0 : dom h0 = {[0%nat; 1%nat; 2%nat]}).
  { subst h0. rewrite !dom_insert_L, dom_empty_L. set_solver. }
  assert (Hlen0 : ∀ p buf, h0 !! p = Some buf → length buf = n).
  { intros p buf. subst h0.
    rewrite !lookup_insert. repeat case_decide; intros Hb; simplify_eq;
      rewrite ?length_replicate; done. }
  unfold Parallel.launch_error.
  destruct (valid_launch _ _) eqn:Hv.
  - (* the launch is accepted *)
    apply valid_launch_range in Hv as Hrange; [| done].
    assert (Hg : Int.to_uint (Parallel.num_blocks size) = (size + 255) `quot` 256).
    { rewrite num_blocks_small by lia. apply to_uint_small.
      unfold Int.INT_MAX in *. Z.to_euclidean_division_equations. lia. }
    assert (Hrun : run_threads
              (vectorAddParallel Float32.add 0 1 2 size (Int.to_uint 256))
              (schedule env (grid_threads (Int.to_uint (Parallel.num_blocks size))
                                          (Int.to_uint 256))) h0
              = Some (<[2%nat := replicate n Float32.three]> h0)).
    { replace size with (Z.of_nat (length U2)) at 1 by (rewrite HU2; done).
      erewrite (run_grid_vectorAdd Float32.add 0%nat 1%nat 2%nat
                  (Int.to_uint (Parallel.num_blocks size)) (Int.to_uint 256));
        [| done | done | exact Hh0a | exact Hh0b | exact Hh0c | ..].
      - rewrite zip_with_replicate. done.
      - by rewrite length_replicate.
      - by rewrite length_replicate.
      - done.
      - rewrite Hg. apply Z.quot_pos; lia.
      - rewrite HU2, Hn, Hg. change (Int.to_uint 256) with 256.
        Z.to_euclidean_division_equations. lia.
      - rewrite Hg. change (Int.to_uint 256) with 256.
        unfold Int.INT_MAX in *. Z.to_euclidean_division_equations. lia.
      - by apply Hfair. }
    erewrite step_launch_valid; [| done | exact Hrun].
    run_prog. rewrite bind_unfold, step_synchronize. run_prog.
    rewrite bool_decide_true by done.
    rewrite bind_unfold. run_prog.
    destruct (decide (device_fault env = cudaSuccess)) as [Hf | Hf].
    + rewrite Hf. rewrite !bool_decide_false by (intros ?; done).
      exists h0. split_and!; [done | done |].
      rewrite bind_unfold.
      erewrite step_memcpy_d2h; cycle 1.
      { run_prog. apply lookup_insert_eq. }
      { rewrite Hk, length_replicate. done. }
      { rewrite Hk, length_replicate. done. }
      rewrite Hk, fill_buffer by (by rewrite length_replicate).
      repeat (rewrite bind_unfold; run_prog).
      done.
    + rewrite !bool_decide_true by done.
      exists (<[2%nat := replicate n Float32.three]> h0). split_and!.
      * rewrite dom_insert_L, Hdom0. set_solver.
      * intros p buf. rewrite lookup_insert. case_decide.
        -- intros [= <-]. by rewrite length_replicate.
        -- apply Hlen0.
      * repeat (rewrite bind_unfold; run_prog). done.
  - (* the launch is rejected *)
    rewrite step_launch_invalid by done.
    run_prog. rewrite bind_unfold, step_synchronize. run_prog.
    rewrite bool_decide_false by done.
    rewrite !bool_decide_true by done.
    exists h0. split_and!; [done | done |].
    repeat (rewrite bind_unfold; run_prog). done.
Qed.

(** The sequential adder on the vectors of its [main]. *)
Lemma sequential_fill (n : nat) :
  Z.of_nat n ≤ Int.INT_MAX →
  vectorAddSequential Float32.add (replicate n Float32.one)
      (replicate n Float32.two) (replicate n Float32.zero)
    = Some (replicate n Float32.three).
Proof.
  intros Hn.
  assert (Hk : seq_iterations (replicate n Float32.one) = n).
  { rewrite seq_iterations_fits; rewrite length_replicate; done. }
  rewrite vectorAddSequential_spec by (rewrite Hk, length_replicate; done).
  rewrite Hk.
  rewrite !take_ge by (by rewrite length_replicate).
  rewrite drop_ge by (by rewrite length_replicate).
  rewrite zip_with_replicate, app_nil_r. done.
Qed.

(** The run of the sequential program from the initial state. *)
Lemma sequential_main_run (env : Env) (size : Z) :
  0 ≤ size ≤ Int.INT_MAX →
  Sequential.main_with env size initial = Some
    ((0, replicate (Z.to_nat size) Float32.three),
     {| heap := ∅; next_ptr := 0; last_error := cudaSuccess; clock_reads := 2;
        stdout := "Sequential Vector Addition took " +:+
          pretty (milliseconds (clock env 1 - clock env 0)) +:+
          " milliseconds." +:+ newline;
        stderr := EmptyString;
        trace := [EvNow (clock env 0); EvNow (clock env 1);
                  EvCout ("Sequential Vector Addition took " +:+
                    pretty (milliseconds (clock env 1 - clock env 0)) +:+
                    " milliseconds." +:+ newline)] |}).
Proof.
  intros Hsize. unfold Sequential.main_with, vector.
  rewrite sequential_fill by lia.
  unfold initial, defined.
  repeat (rewrite bind_unfold; run_prog). done.
Qed.

(** ** The sample environments *)

Lemma fair_quiet_device : fair quiet_device.
Proof. intros ts. apply reverse_Permutation. Qed.

Lemma fair_faulty_device : fair faulty_device.
Proof. intros ts. apply reverse_Permutation. Qed.

(** ** Consequences of the run lemmas *)

(** The parallel program always terminates with a defined result; its exit
    status is 0 exactly when [cudaGetLastError] finds no error, and then
    [h_c] holds 3.0 everywhere. *)
Lemma parallel_main_result (env : Env) (size : Z) :
  fair env → 0 ≤ size ≤ Int.INT_MAX →
  ∃ r m, Parallel.main_with env size initial = Some (r, m) ∧
    (r.1 = 0 ↔ Parallel.launch_error env size = cudaSuccess) ∧
    (r.1 = 0 → r.2 = replicate (Z.to_nat size) Float32.three) ∧
    (r.1 ≠ 0 → r.2 = replicate (Z.to_nat size) Float32.zero).
Proof.
  intros Hfair Hsize.
  destruct (parallel_main_run env size (λ _, Hfair) Hsize) as (h & _ & _ & ->).
  case_bool_decide as He; eexists _, _; (split; [reflexivity |]); simpl.
  - split_and!; [| done ..]. split; [done |]. intros He'. by destruct He.
  - split_and!; done.
Qed.

(** The kernel as launched by [main_with] on buffers of [n] elements, for
    any addition: the output buffer becomes the element-wise sum. *)
Lemma launch_vectorAdd {F : Type} (fadd : F → F → F) (pa pb pc : nat)
    (ts : list (Z * Z)) (h : gmap nat (list F)) (a b c : list F) :
  pa ≠ pc → pb ≠ pc →
  h !! pa = Some a → h !! pb = Some b → h !! pc = Some c →
  length b = length a → length c = length a →
  Z.of_nat (length a) ≤ Int.INT_MAX - 255 →
  ts ≡ₚ grid_threads (Int.to_uint (Parallel.num_blocks (Z.of_nat (length a))))
                     (Int.to_uint 256) →
  run_threads (vectorAddParallel fadd pa pb pc (Z.of_nat (length a))
                 (Int.to_uint 256)) ts h
    = Some (<[pc := zip_with fadd a b]> h).
Proof.
  intros Hac Hbc Ha Hb Hc Hlb Hlc Hmax Hperm.
  assert (Hg : Int.to_uint (Parallel.num_blocks (Z.of_nat (length a)))
               = (Z.of_nat (length a) + 255) `quot` 256).
  { rewrite num_blocks_small by lia. apply to_uint_small.
    unfold Int.INT_MAX in *. Z.to_euclidean_division_equations. lia. }
  rewrite <- Hlc.
  apply (run_grid_vectorAdd fadd pa pb pc
           (Int.to_uint (Parallel.num_blocks (Z.of_nat (length a))))
           (Int.to_uint 256)); try done; try congruence.
  - rewrite Hg. apply Z.quot_pos; lia.
  - rewrite Hlc, Hg. change (Int.to_uint 256) with 256.
    Z.to_euclidean_division_equations. lia.
  - rewrite Hg. change (Int.to_uint 256) with 256.
    unfold Int.INT_MAX in *. Z.to_euclidean_division_equations. lia.
Qed.

(** Element-wise sums, read by index. *)
Lemma lookup_sums {F : Type} (fadd : F → F → F) (a b : list F) (i : nat) (x y : F) :
  a !! i = Some x → b !! i = Some y → zip_with fadd a b !! i = Some (fadd x y).
Proof. intros Ha Hb. rewrite lookup_zip_with, Ha. simpl. rewrite Hb. done. Qed.

(** The sequential adder on vectors of one length that fits [int]. *)
Lemma sequential_equal_lengths {F : Type} (fadd : F → F → F) (a b c : list F) :
  length b = length a → length c = length a →
  Z.of_nat (length a) ≤ Int.INT_MAX →
  vectorAddSequential fadd a b c = Some (zip_with fadd a b).
Proof.
  intros Hb Hc Hmax.
  pose proof (seq_iterations_fits a Hmax) as Hk.
  rewrite vectorAddSequential_spec by lia. rewrite Hk.
  rewrite <- Hb at 2. rewrite <- Hc, !take_ge, drop_all, app_nil_r by lia. done.
Qed.

(** * The claims *)

(** C1. Both adders compute the element-wise sum: for input vectors [a] and
    [b] of one length [N] that an [int] holds and an output of that length,
    the sequential adder leaves [a[i] + b[i]] at every index [i < N] of the
    output, and so does the kernel launched as in [main], in whatever order
    the device runs the units, when [N + 255] fits [int] as the grid size of
    [main] needs. With the inputs of the two programs, filled with 1.0 and
    2.0, every element of [h_c] is exactly 3.0 when the program exits with
    status 0: the sequential one always does, the parallel one does when
    [cudaGetLastError] finds no error. *)
Theorem C1_adders_compute_sums {F : Type} (fadd : F → F → F)
    (a b c : list F) (pa pb pc : nat) (h : gmap nat (list F))
    (ts : list (Z * Z)) (env : Env) (size : Z) :
  length b = length a → length c = length a →
  Z.of_nat (length a) ≤ Int.INT_MAX →
  pa ≠ pc → pb ≠ pc →
  h !! pa = Some a → h !! pb = Some b → h !! pc = Some c →
  ts ≡ₚ grid_threads (Int.to_uint (Parallel.num_blocks (Z.of_nat (length a))))
                     (Int.to_uint 256) →
  fair env → 0 ≤ size ≤ Int.INT_MAX →
  (∃ c', vectorAddSequential fadd a b c = Some c' ∧ length c' = length a ∧
     ∀ i x y, a !! i = Some x → b !! i = Some y → c' !! i = Some (fadd x y)) ∧
  (Z.of_nat (length a) ≤ Int.INT_MAX - 255 →
   ∃ c', run_threads (vectorAddParallel fadd pa pb pc (Z.of_nat (length a))
                        (Int.to_uint 256)) ts h = Some (<[pc := c']> h) ∧
     length c' = length a ∧
     ∀ i x y, a !! i = Some x → b !! i = Some y → c' !! i = Some (fadd x y)) ∧
  Float32.add Float32.one Float32.two = Float32.three ∧
  (∃ m, Sequential.main_with env size initial
          = Some ((0, replicate (Z.to_nat size) Float32.three), m)) ∧
  (∃ r m, Parallel.main_with env size initial = Some (r, m) ∧
     (r.1 = 0 ↔ Parallel.launch_error env size = cudaSuccess) ∧
     (r.1 = 0 → r.2 = replicate (Z.to_nat size) Float32.three)) ∧
  (∃ m, Sequential.main env initial
          = Some ((0, replicate (Z.to_nat Sequential.size) Float32.three), m)) ∧
  (device_fault env = cudaSuccess →
   ∃ m, Parallel.main env initial
          = Some ((0, replicate (Z.to_nat Parallel.size) Float32.three), m)).
Proof.
  intros Hlb Hlc Hmax Hac Hbc Ha Hb Hc Hperm Hfair Hsize.
  assert (Hlz : length (zip_with fadd a b) = length a).
  { rewrite length_zip_with. lia. }
  split_and!.
  - exists (zip_with fadd a b). split_and!; [| done |].
    + by apply sequential_equal_lengths.
    + intros i x y. apply lookup_sums.
  - intros Hgrid. exists (zip_with fadd a b). split_and!; [| done |].
    + by apply (launch_vectorAdd fadd pa pb pc ts h a b c).
    + intros i x y. apply lookup_sums.
  - reflexivity.
  - rewrite sequential_main_run by done. eexists. reflexivity.
  - destruct (parallel_main_result env size Hfair Hsize)
      as (r & m & Hrun & Hexit & Hok & _).
    by exists r, m.
  - unfold Sequential.main.
    rewrite sequential_main_run by (unfold Sequential.size, Int.INT_MAX; lia).
    eexists. reflexivity.
  - intros Hfault.
    assert (Hs : 0 ≤ Parallel.size ≤ Int.INT_MAX)
      by (unfold Parallel.size, Int.INT_MAX; lia).
    destruct (parallel_main_run env Parallel.size (λ _, Hfair) Hs) as (h' & _ & _ & Hrun).
    unfold Parallel.main. rewrite Hrun.
    unfold Parallel.launch_error.
    rewrite valid_launch_in_range
      by (unfold Parallel.size, Int.INT_MAX; lia).
    rewrite Hfault, bool_decide_false by (intros Hne; exact (Hne eq_refl)).
    eexists. reflexivity.
Qed.

(** An instance of C1: three elements, the buffers at device pointers 0, 1
    and 2, the units of the launch in reverse order. *)
Lemma C1_witness :
  (∃ c', vectorAddSequential Z.add [1; 2; 3] [10; 20; 30] [0; 0; 0] = Some c' ∧
         c' !! 1%nat = Some 22) ∧
  (∃ c', run_threads (vectorAddParallel Z.add 0 1 2 3 256)
           (reverse (grid_threads 1 256))
           (three_buffers [1; 2; 3] [10; 20; 30] [0; 0; 0])
         = Some (<[2%nat := c']> (three_buffers [1; 2; 3] [10; 20; 30] [0; 0; 0])) ∧
         c' !! 1%nat = Some 22).
Proof.
  destruct (C1_adders_compute_sums Z.add [1; 2; 3] [10; 20; 30] [0; 0; 0]
              0%nat 1%nat 2%nat
              (three_buffers [1; 2; 3] [10; 20; 30] [0; 0; 0])
              (reverse (grid_threads 1 256)) quiet_device 3)
    as ((c' & Hrun & _ & Hsum) & Hkernel & _).
  - reflexivity.
  - reflexivity.
  - vm_compute. discriminate.
  - discriminate.
  - discriminate.
  - reflexivity.
  - reflexivity.
  - reflexivity.
  - apply reverse_Permutation.
  - exact fair_quiet_device.
  - vm_compute. split; discriminate.
  - split.
    + exists c'. split; [exact Hrun |]. apply (Hsum 1%nat 2 20); reflexivity.
    + destruct Hkernel as (d' & Hlaunch & _ & Hsum'); [vm_compute; discriminate |].
      exists d'. split; [exact Hlaunch |]. apply (Hsum' 1%nat 2 20); reflexivity.
Defined.

(** Two element-wise results are one list exactly when the two operations
    agree on every pair of inputs. *)
Lemma zip_with_agree_iff {F : Type} (f g : F → F → F) (a b : list F) :
  zip_with f a b = zip_with g a b ↔
  ∀ i x y, a !! i = Some x → b !! i = Some y → f x y = g x y.
Proof.
  split.
  - intros Heq i x y Ha Hb. apply (f_equal (.!! i)) in Heq.
    rewrite !lookup_zip_with, Ha, Hb in Heq. simpl in Heq. by injection Heq.
  - intros Hpt. apply list_eq. intros i. rewrite !lookup_zip_with.
    destruct (a !! i) as [x |] eqn:Ha; [| done]. simpl.
    destruct (b !! i) as [y |] eqn:Hb; [| done]. simpl.
    f_equal. by apply (Hpt i).
Qed.

(** Quieting a NaN gives a NaN. *)
Lemma quiet_nan (w : Z) :
  Binary32.is_nan w = true → Binary32.decode (Binary32.quiet w) = S754_nan.
Proof.
  unfold Binary32.is_nan, Binary32.quiet, Binary32.decode,
    Binary32.exponent, Binary32.mantissa.
  intros H. apply andb_true_iff in H as [He Hm].
  apply Z.eqb_eq in He. apply negb_true_iff, Z.eqb_neq in Hm.
  destruct (Z.ltb_spec (w `mod` 8388608) 4194304) as [Hlt | Hge].
  - assert (E1 : ((w + 4194304) `div` 8388608) `mod` 256 = 255)
      by (Z.to_euclidean_division_equations; lia).
    assert (E2 : (w + 4194304) `mod` 8388608 ≠ 0)
      by (Z.to_euclidean_division_equations; lia).
    rewrite E1. simpl. apply Z.eqb_neq in E2. rewrite E2. reflexivity.
  - rewrite He. simpl. apply Z.eqb_neq in Hm. rewrite Hm. reflexivity.
Qed.

(** Host and device give the same bits whenever the sum is not a NaN. *)
Lemma host_device_same_bits (x y : Z) :
  Float32.add (Binary32.decode x) (Binary32.decode y) ≠ S754_nan →
  Binary32.host_add x y = Binary32.device_add x y.
Proof.
  unfold Binary32.host_add, Binary32.device_add. intros Hsum.
  destruct (Float32.add _ _); [reflexivity | reflexivity | | reflexivity].
  by destruct Hsum.
Qed.

(** Host and device always give the same value. *)
Lemma host_device_same_value (x y : Z) :
  Binary32.decode (Binary32.host_add x y)
    = Binary32.decode (Binary32.device_add x y).
Proof.
  unfold Binary32.host_add, Binary32.device_add.
  destruct (Float32.add _ _); [reflexivity | reflexivity | | reflexivity].
  change (Binary32.decode 2147483647) with S754_nan.
  destruct (Binary32.is_nan x) eqn:Hx; [by apply quiet_nan |].
  destruct (Binary32.is_nan y) eqn:Hy; [by apply quiet_nan |].
  reflexivity.
Qed.

(** C2, as stated, fails: for the one-element inputs NaN (the host's quiet
    NaN [0x7FC00000]) and 1.0 the sequential adder, with the addition of
    the host, returns the NaN operand [0x7FC00000], and the kernel, with
    the addition of the device, the canonical NaN [0x7FFFFFFF]: the two
    outputs are defined and differ in their bits. *)
Lemma C2_nan_bits_differ :
  ∃ out_host out_device,
    vectorAddSequential Binary32.host_add
      [Binary32.host_quiet_nan] [Binary32.one] [0] = Some out_host ∧
    run_threads (vectorAddParallel Binary32.device_add 0 1 2 1 (Int.to_uint 256))
      (grid_threads (Int.to_uint (Parallel.num_blocks 1)) (Int.to_uint 256))
      (three_buffers [Binary32.host_quiet_nan] [Binary32.one] [0])
      = Some (<[2%nat := out_device]>
                (three_buffers [Binary32.host_quiet_nan] [Binary32.one] [0])) ∧
    out_host = [2143289344] ∧ out_device = [2147483647] ∧
    out_host ≠ out_device.
Proof.
  exists [2143289344], [2147483647].
  split; [vm_compute; reflexivity |].
  split; [vm_compute; reflexivity |].
  split; [reflexivity |]. split; [reflexivity |]. discriminate.
Qed.

(** C2, amended. On the same inputs the two adders traverse alike: with an
    addition [hadd] on the host and an addition [dadd] on the device, the
    sequential adder ends with the element-wise [hadd] and the kernel
    launched as in [main] with the element-wise [dadd] of the same inputs,
    so the two outputs are one and the same sequence exactly when the two
    additions agree on every pair of inputs. On binary32 bit patterns the
    additions of host and device always give the same value, and the same
    bits whenever the sum is not a NaN; for 1.0 and 2.0 both give the bits
    of 3.0, and the [h_c] of a parallel run that exits with status 0 is the
    [h_c] of the sequential run. *)
Theorem C2_adders_agree_up_to_nan {F : Type} (hadd dadd : F → F → F)
    (a b c_host c_dev : list F) (pa pb pc : nat) (h : gmap nat (list F))
    (ts : list (Z * Z)) (env : Env) (size : Z) :
  length b = length a → length c_host = length a → length c_dev = length a →
  Z.of_nat (length a) ≤ Int.INT_MAX - 255 →
  pa ≠ pc → pb ≠ pc →
  h !! pa = Some a → h !! pb = Some b → h !! pc = Some c_dev →
  ts ≡ₚ grid_threads (Int.to_uint (Parallel.num_blocks (Z.of_nat (length a))))
                     (Int.to_uint 256) →
  fair env → 0 ≤ size ≤ Int.INT_MAX →
  vectorAddSequential hadd a b c_host = Some (zip_with hadd a b) ∧
  run_threads (vectorAddParallel dadd pa pb pc (Z.of_nat (length a))
                 (Int.to_uint 256)) ts h
    = Some (<[pc := zip_with dadd a b]> h) ∧
  (zip_with hadd a b = zip_with dadd a b ↔
   ∀ i x y, a !! i = Some x → b !! i = Some y → hadd x y = dadd x y) ∧
  (∀ x y : Z,
     Binary32.decode (Binary32.host_add x y)
       = Binary32.decode (Binary32.device_add x y) ∧
     (Float32.add (Binary32.decode x) (Binary32.decode y) ≠ S754_nan →
      Binary32.host_add x y = Binary32.device_add x y)) ∧
  (Binary32.decode Binary32.one = Float32.one ∧
   Binary32.decode Binary32.two = Float32.two ∧
   Binary32.decode Binary32.three = Float32.three ∧
   Binary32.host_add Binary32.one Binary32.two = Binary32.three ∧
   Binary32.device_add Binary32.one Binary32.two = Binary32.three) ∧
  (∃ rs ms rp mp,
     Sequential.main_with env size initial = Some (rs, ms) ∧
     Parallel.main_with env size initial = Some (rp, mp) ∧
     (rp.1 = 0 ↔ Parallel.launch_error env size = cudaSuccess) ∧
     (rp.1 = 0 → rp.2 = rs.2)).
Proof.
  intros Hlb Hlh Hld Hmax Hac Hbc Ha Hb Hc Hperm Hfair Hsize. split_and!.
  - apply sequential_equal_lengths; [done | done |]. lia.
  - by apply (launch_vectorAdd dadd pa pb pc ts h a b c_dev).
  - apply zip_with_agree_iff.
  - intros x y. split; [apply host_device_same_value |].
    apply host_device_same_bits.
  - reflexivity.
  - reflexivity.
  - reflexivity.
  - reflexivity.
  - reflexivity.
  - destruct (parallel_main_result env size Hfair Hsize)
      as (rp & mp & Hrun & Hexit & Hok & _).
    eexists _, _, rp, mp. split_and!; [by apply sequential_main_run | done ..].
Qed.

(** An instance of C2, amended: the bit patterns of 1.0 and 2.0, and of
    -1.5 and 0.25, outputs that start with different contents. *)
Lemma C2_witness :
  vectorAddSequential Binary32.host_add [1065353216; 3217031168]
      [1073741824; 1048576000] [7; 7]
    = Some (zip_with Binary32.host_add [1065353216; 3217031168]
              [1073741824; 1048576000]) ∧
  run_threads (vectorAddParallel Binary32.device_add 0 1 2 2 (Int.to_uint 256))
      (reverse (grid_threads 1 256))
      (three_buffers [1065353216; 3217031168] [1073741824; 1048576000] [8; 9])
    = Some (<[2%nat := zip_with Binary32.device_add [1065353216; 3217031168]
                         [1073741824; 1048576000]]>
              (three_buffers [1065353216; 3217031168]
                 [1073741824; 1048576000] [8; 9])).
Proof.
  destruct (C2_adders_agree_up_to_nan Binary32.host_add Binary32.device_add
              [1065353216; 3217031168] [1073741824; 1048576000] [7; 7] [8; 9]
              0%nat 1%nat 2%nat
              (three_buffers [1065353216; 3217031168]
                 [1073741824; 1048576000] [8; 9])
              (reverse (grid_threads 1 256)) quiet_device 2)
    as (Hseq & Hpar & _).
  - reflexivity.
  - reflexivity.
  - reflexivity.
  - vm_compute. discriminate.
  - discriminate.
  - discriminate.
  - reflexivity.
  - reflexivity.
  - reflexivity.
  - apply reverse_Permutation.
  - exact fair_quiet_device.
  - vm_compute. split; discriminate.
  - split; [exact Hseq | exact Hpar].
Defined.

(** What one execution unit does to device memory: past the guard it
    changes nothing; below it, it changes one element of the output buffer,
    at its own index, which lies inside of that buffer. *)
Lemma vectorAddParallel_inv {F : Type} (fadd : F → F → F) (a b c : nat)
    (n blockDim bid tid : Z) (h h' : gmap nat (list F)) :
  vectorAddParallel fadd a b c n blockDim bid tid h = Some h' →
  (n ≤ global_index blockDim bid tid ∧ h' = h) ∨
  (global_index blockDim bid tid < n ∧
   ∃ lc v, h !! c = Some lc ∧
           0 ≤ global_index blockDim bid tid < Z.of_nat (length lc) ∧
           h' = <[c := <[Z.to_nat (global_index blockDim bid tid) := v]> lc]> h).
Proof.
  unfold vectorAddParallel.
  destruct (Z.ltb_spec (global_index blockDim bid tid) n) as [Hlt | Hge].
  - intros Hrun. right. split; [done |].
    destruct (dev_load h a _) as [x |]; [| done].
    destruct (dev_load h b _) as [y |]; [| done].
    simpl in Hrun. unfold dev_store in Hrun.
    destruct (h !! c) as [lc |]; [| done]. simpl in Hrun.
    unfold vec_set in Hrun. case_bool_decide; [| done]. simpl in Hrun.
    exists lc, (fadd x y). by simplify_eq.
  - intros [= <-]. by left.
Qed.

(** C3. The bounds guard. An execution unit writes only when its global
    index is below [n], and then only inside of the output buffer. For a
    length [N] that is not a multiple of 256 the grid of [main] has more
    units than [N] (the last unit of the last block has an index of at
    least [N]), and still the launch is defined, changes the output buffer
    only, keeps its length and leaves [a[i] + b[i]] at every index below
    [N]. The program with such a size is defined, and when
    [cudaGetLastError] finds no error it exits with status 0 and 3.0 in
    every element of [h_c]. *)
Theorem C3_bounds_guard {F : Type} (fadd : F → F → F)
    (a b c : list F) (pa pb pc : nat) (h : gmap nat (list F))
    (ts : list (Z * Z)) (env : Env) (size : Z) :
  Z.of_nat (length a) `mod` 256 ≠ 0 →
  length b = length a → length c = length a →
  Z.of_nat (length a) ≤ Int.INT_MAX - 255 →
  pa ≠ pc → pb ≠ pc →
  h !! pa = Some a → h !! pb = Some b → h !! pc = Some c →
  ts ≡ₚ grid_threads (Int.to_uint (Parallel.num_blocks (Z.of_nat (length a))))
                     (Int.to_uint 256) →
  fair env → 0 ≤ size ≤ Int.INT_MAX → size `mod` 256 ≠ 0 →
  (∀ n blockDim bid tid (h0 h1 : gmap nat (list F)),
     vectorAddParallel fadd pa pb pc n blockDim bid tid h0 = Some h1 →
     (n ≤ global_index blockDim bid tid → h1 = h0) ∧
     (h1 ≠ h0 → global_index blockDim bid tid < n ∧
        ∃ lc v, h0 !! pc = Some lc ∧
          0 ≤ global_index blockDim bid tid < Z.of_nat (length lc) ∧
          h1 = <[pc := <[Z.to_nat (global_index blockDim bid tid) := v]> lc]> h0)) ∧
  (Z.of_nat (length a)
     < Int.to_uint (Parallel.num_blocks (Z.of_nat (length a))) * Int.to_uint 256 ∧
   (Int.to_uint (Parallel.num_blocks (Z.of_nat (length a))) - 1, 255) ∈ ts ∧
   Z.of_nat (length a)
     ≤ global_index (Int.to_uint 256)
         (Int.to_uint (Parallel.num_blocks (Z.of_nat (length a))) - 1) 255) ∧
  (∃ c', run_threads (vectorAddParallel fadd pa pb pc (Z.of_nat (length a))
                        (Int.to_uint 256)) ts h = Some (<[pc := c']> h) ∧
     length c' = length c ∧
     ∀ i x y, a !! i = Some x → b !! i = Some y → c' !! i = Some (fadd x y)) ∧
  (∃ r m, Parallel.main_with env size initial = Some (r, m) ∧
     (Parallel.launch_error env size = cudaSuccess →
      r = (0, replicate (Z.to_nat size) Float32.three))).
Proof.
  intros Hmod Hlb Hlc Hmax Hac Hbc Ha Hb Hc Hperm Hfair Hsize Hsmod.
  assert (Hg : Int.to_uint (Parallel.num_blocks (Z.of_nat (length a)))
               = (Z.of_nat (length a) + 255) `quot` 256).
  { rewrite num_blocks_small by lia. apply to_uint_small.
    unfold Int.INT_MAX in *. Z.to_euclidean_division_equations. lia. }
  split_and!.
  - intros n blockDim bid tid h0 h1 Hrun.
    destruct (vectorAddParallel_inv fadd pa pb pc n blockDim bid tid h0 h1 Hrun)
      as [[Hge ->] | [Hlt Hw]].
    + split; [done |]. intros Hne. by destruct Hne.
    + split; [lia | done].
  - rewrite Hg. change (Int.to_uint 256) with 256.
    Z.to_euclidean_division_equations. lia.
  - rewrite Hperm. apply elem_of_grid_threads.
    rewrite Hg. change (Int.to_uint 256) with 256.
    Z.to_euclidean_division_equations. lia.
  - rewrite Hg. change (Int.to_uint 256) with 256.
    rewrite global_index_small; unfold Int.INT_MAX in *;
      Z.to_euclidean_division_equations; lia.
  - exists (zip_with fadd a b). split_and!.
    + by apply (launch_vectorAdd fadd pa pb pc ts h a b c).
    + rewrite length_zip_with. lia.
    + intros i x y. apply lookup_sums.
  - destruct (parallel_main_result env size Hfair Hsize)
      as ([status h_c] & m & Hrun & Hexit & Hok & _).
    exists (status, h_c), m. split; [done |].
    intros He. simpl in *. apply Hexit in He as ->. by rewrite Hok.
Qed.

(** An instance of C3: 257 elements, a grid of two blocks of 256 units run
    in reverse order. *)
Lemma C3_witness :
  257 `mod` 256 ≠ 0 ∧
  ∃ c', run_threads (vectorAddParallel Z.add 0 1 2 257 256)
          (reverse (grid_threads 2 256))
          (three_buffers (replicate 257 1) (replicate 257 2) (replicate 257 0))
        = Some (<[2%nat := c']>
            (three_buffers (replicate 257 1) (replicate 257 2) (replicate 257 0))) ∧
        length c' = 257%nat ∧ c' !! 256%nat = Some 3.
Proof.
  split; [discriminate |].
  destruct (C3_bounds_guard Z.add (replicate 257 1) (replicate 257 2)
              (replicate 257 0) 0%nat 1%nat 2%nat
              (three_buffers (replicate 257 1) (replicate 257 2) (replicate 257 0))
              (reverse (grid_threads 2 256)) quiet_device 257)
    as (_ & _ & (c' & Hrun & Hlen & Hsum) & _).
  - discriminate.
  - reflexivity.
  - reflexivity.
  - vm_compute. discriminate.
  - discriminate.
  - discriminate.
  - reflexivity.
  - reflexivity.
  - reflexivity.
  - apply reverse_Permutation.
  - exact fair_quiet_device.
  - vm_compute. split; discriminate.
  - discriminate.
  - exists c'. split_and!; [exact Hrun | exact Hlen |].
    apply (Hsum 256%nat 1 2); reflexivity.
Defined.

(** C4. Exit behaviour. The parallel program is defined for every size; if
    [cudaGetLastError], called after the synchronization, returns an error
    [e], the program writes ["CUDA error: "], the description of [e] and a
    newline to standard error, writes nothing to standard output, makes no
    device-to-host transfer and exits with status 1; otherwise it exits with
    status 0 after writing the one line
    ["Parallel Vector Addition took <d> milliseconds."] to standard output
    and nothing to standard error. The sequential program always exits with
    status 0 after writing the one line
    ["Sequential Vector Addition took <d> milliseconds."]. *)
Theorem C4_exit_behaviour (env : Env) (size : Z) :
  fair env → 0 ≤ size ≤ Int.INT_MAX →
  (∃ r m, Parallel.main_with env size initial = Some (r, m) ∧
     ∃ before after,
       trace m = before ++ [EvDeviceSynchronize;
                            EvGetLastError (Parallel.launch_error env size)]
                        ++ after ∧
       (Parallel.launch_error env size ≠ cudaSuccess →
          r.1 = 1 ∧
          stderr m = "CUDA error: " +:+
            cudaGetErrorString env (Parallel.launch_error env size) +:+ newline ∧
          stdout m = EmptyString ∧
          after = [EvCerr (stderr m)] ∧
          ∀ p bytes, EvMemcpyDeviceToHost p bytes ∉ trace m) ∧
       (Parallel.launch_error env size = cudaSuccess →
          r.1 = 0 ∧
          (∃ d : Z, stdout m = "Parallel Vector Addition took " +:+ pretty d +:+
                           " milliseconds." +:+ newline) ∧
          stderr m = EmptyString ∧
          List.filter is_output (trace m) = [EvCout (stdout m)])) ∧
  (∃ r m, Sequential.main_with env size initial = Some (r, m) ∧
     r.1 = 0 ∧
     (∃ d : Z, stdout m = "Sequential Vector Addition took " +:+ pretty d +:+
                      " milliseconds." +:+ newline) ∧
     stderr m = EmptyString ∧
     List.filter is_output (trace m) = [EvCout (stdout m)]).
Proof.
  intros Hfair Hsize. split.
  - destruct (parallel_main_run env size (λ _, Hfair) Hsize) as (h & _ & _ & ->).
    case_bool_decide as He.
    + eexists _, _. split; [reflexivity |]. cbn [trace stderr stdout fst].
      eexists [_; _; _; _; _; _; _], _. split; [reflexivity |]. split.
      * intros _. split_and!; try reflexivity.
        intros p bytes Hin. repeat (apply elem_of_cons in Hin as [Hin | Hin];
          [discriminate Hin |]). by apply elem_of_nil in Hin.
      * intros He'. by destruct He.
    + eexists _, _. split; [reflexivity |]. cbn [trace stderr stdout fst].
      rewrite He.
      eexists [_; _; _; _; _; _; _], _. split; [reflexivity |]. split.
      * intros Hne. by destruct Hne.
      * intros _. split_and!; try reflexivity. eexists. reflexivity.
  - rewrite sequential_main_run by done.
    eexists _, _. split; [reflexivity |]. cbn [trace stderr stdout fst].
    split_and!; try reflexivity. eexists. reflexivity.
Qed.

(** Instances of C4: a device that raises an error, and one that does
    not. *)
Lemma C4_witness :
  (∃ r m, Parallel.main_with faulty_device 2 initial = Some (r, m) ∧
          r.1 = 1 ∧ stderr m = "CUDA error: error 700" +:+ newline) ∧
  (∃ r m, Parallel.main_with quiet_device 2 initial = Some (r, m) ∧
          r.1 = 0 ∧ stderr m = EmptyString).
Proof.
  split.
  - destruct (C4_exit_behaviour faulty_device 2) as [(r & m & Hrun & Hrest) _].
    + exact fair_faulty_device.
    + vm_compute. split; discriminate.
    + destruct Hrest as (before & after & _ & Herr & _).
      destruct Herr as (Hexit & Hcerr & _); [vm_compute; discriminate |].
      exists r, m. split_and!; [exact Hrun | exact Hexit | exact Hcerr].
  - destruct (C4_exit_behaviour quiet_device 2) as [(r & m & Hrun & Hrest) _].
    + exact fair_quiet_device.
    + vm_compute. split; discriminate.
    + destruct Hrest as (before & after & _ & _ & Hok).
      destruct Hok as (Hexit & _ & Hcerr & _); [reflexivity |].
      exists r, m. split_and!; [exact Hrun | exact Hexit | exact Hcerr].
Defined.

(** The program as written, on the device that raises no error: its run is
    the successful one. *)
Lemma parallel_main_quiet :
  ∃ r m, Parallel.main quiet_device initial = Some (r, m) ∧ r.1 = 0 ∧
    trace m =
      [EvMalloc 0 (Parallel.size * sizeof_float);
       EvMalloc 1 (Parallel.size * sizeof_float);
       EvMalloc 2 (Parallel.size * sizeof_float);
       EvMemcpyHostToDevice 0 (Parallel.size * sizeof_float);
       EvMemcpyHostToDevice 1 (Parallel.size * sizeof_float);
       EvNow (clock quiet_device 0);
       EvLaunch (Int.to_uint (Parallel.num_blocks Parallel.size)) (Int.to_uint 256);
       EvDeviceSynchronize;
       EvGetLastError cudaSuccess;
       EvMemcpyDeviceToHost 2 (Parallel.size * sizeof_float);
       EvNow (clock quiet_device 1);
       EvCout ("Parallel Vector Addition took " +:+
         pretty (milliseconds (clock quiet_device 1 - clock quiet_device 0)) +:+
         " milliseconds." +:+ newline);
       EvFree 0; EvFree 1; EvFree 2].
Proof.
  assert (Hs : 0 ≤ Parallel.size ≤ Int.INT_MAX)
    by (unfold Parallel.size, Int.INT_MAX; lia).
  destruct (parallel_main_run quiet_device Parallel.size (λ _, fair_quiet_device) Hs)
    as (h & _ & _ & Hrun).
  unfold Parallel.main. rewrite Hrun. clear Hrun.
  unfold Parallel.launch_error.
  rewrite valid_launch_in_range by (unfold Parallel.size, Int.INT_MAX; lia).
  change (device_fault quiet_device) with cudaSuccess.
  rewrite bool_decide_false by (intros Hne; exact (Hne eq_refl)).
  eexists _, _. split; [reflexivity |]. split; reflexivity.
Qed.

(** C5, as stated, fails: in the run of the program as written the
    device-to-host transfer of the output lies between the two clock
    readings. *)
Lemma C5_transfer_inside_timed_interval :
  ∃ r m mid,
    Parallel.main quiet_device initial = Some (r, m) ∧
    timed_interval (trace m) = Some mid ∧
    EvMemcpyDeviceToHost 2 (Parallel.size * sizeof_float) ∈ mid.
Proof.
  destruct parallel_main_quiet as (r & m & Hrun & _ & Htrace).
  exists r, m. eexists. split; [exact Hrun |]. rewrite Htrace.
  split; [reflexivity |].
  do 3 apply list_elem_of_further. apply list_elem_of_here.
Qed.

(** C5, amended. The first clock reading is taken after the two
    host-to-device transfers and immediately before the launch. When
    [cudaGetLastError] finds no error, the second is taken immediately after
    the device-to-host transfer, and the reported duration is the difference
    of the two: the timed interval holds the launch, the synchronization,
    the error check and the device-to-host transfer, in this order, and
    nothing else; only the host-to-device transfers lie outside of it. On
    the error exit no second reading is taken and no duration is
    reported. *)
Theorem C5_timed_interval (env : Env) (size : Z) :
  fair env → 0 ≤ size ≤ Int.INT_MAX →
  ∃ r m, Parallel.main_with env size initial = Some (r, m) ∧
    before_timing (trace m) =
      Some [EvMalloc 0 (size * sizeof_float);
            EvMalloc 1 (size * sizeof_float);
            EvMalloc 2 (size * sizeof_float);
            EvMemcpyHostToDevice 0 (size * sizeof_float);
            EvMemcpyHostToDevice 1 (size * sizeof_float)] ∧
    (Parallel.launch_error env size = cudaSuccess →
       timed_interval (trace m) =
         Some [EvLaunch (Int.to_uint (Parallel.num_blocks size)) (Int.to_uint 256);
               EvDeviceSynchronize;
               EvGetLastError cudaSuccess;
               EvMemcpyDeviceToHost 2 (size * sizeof_float)] ∧
       stdout m = "Parallel Vector Addition took " +:+
         pretty (milliseconds (clock env 1 - clock env 0)) +:+
         " milliseconds." +:+ newline ∧
       List.filter is_transfer (trace m) =
         [EvMemcpyHostToDevice 0 (size * sizeof_float);
          EvMemcpyHostToDevice 1 (size * sizeof_float);
          EvMemcpyDeviceToHost 2 (size * sizeof_float)]) ∧
    (Parallel.launch_error env size ≠ cudaSuccess →
       timed_interval (trace m) = None ∧ stdout m = EmptyString).
Proof.
  intros Hfair Hsize.
  destruct (parallel_main_run env size (λ _, Hfair) Hsize) as (h & _ & _ & ->).
  case_bool_decide as He.
  - eexists _, _. split; [reflexivity |]. cbn [trace stdout].
    split_and!; [reflexivity | | ].
    + intros He'. by destruct He.
    + intros _. split; reflexivity.
  - eexists _, _. split; [reflexivity |]. cbn [trace stdout].
    split_and!; [reflexivity | | ].
    + intros _. split_and!; reflexivity.
    + intros Hne. by destruct Hne.
Qed.

(** An instance of C5, amended: the program as written on the device that
    raises no error. *)
Lemma C5_witness :
  ∃ r m, Parallel.main_with quiet_device Parallel.size initial = Some (r, m) ∧
    timed_interval (trace m) =
      Some [EvLaunch (Int.to_uint (Parallel.num_blocks Parallel.size))
              (Int.to_uint 256);
            EvDeviceSynchronize;
            EvGetLastError cudaSuccess;
            EvMemcpyDeviceToHost 2 (Parallel.size * sizeof_float)].
Proof.
  destruct (C5_timed_interval quiet_device Parallel.size)
    as (r & m & Hrun & _ & Hok & _).
  - exact fair_quiet_device.
  - vm_compute. split; discriminate.
  - destruct Hok as (Htimed & _); [vm_compute; reflexivity |].
    exists r, m. split; [exact Hrun | exact Htimed].
Defined.

(** C6. The error exit leaks. When [cudaGetLastError] finds an error the
    program returns 1 with its three device buffers still allocated and
    without any call of [cudaFree]; only the exit with status 0 releases
    them. *)
Theorem C6_error_exit_leaks (env : Env) (size : Z) :
  fair env → 0 ≤ size ≤ Int.INT_MAX →
  ∃ r m, Parallel.main_with env size initial = Some (r, m) ∧
    (Parallel.launch_error env size ≠ cudaSuccess →
       r.1 = 1 ∧ dom (heap m) = {[0%nat; 1%nat; 2%nat]} ∧
       ∀ p, EvFree p ∉ trace m) ∧
    (Parallel.launch_error env size = cudaSuccess →
       r.1 = 0 ∧ heap m = ∅ ∧
       EvFree 0 ∈ trace m ∧ EvFree 1 ∈ trace m ∧ EvFree 2 ∈ trace m).
Proof.
  intros Hfair Hsize.
  destruct (parallel_main_run env size (λ _, Hfair) Hsize) as (h & Hdom & _ & ->).
  case_bool_decide as He.
  - eexists _, _. split; [reflexivity |]. cbn [trace heap fst]. split.
    + intros _. split_and!; [reflexivity | exact Hdom |].
      intros p Hin. repeat (apply elem_of_cons in Hin as [Hin | Hin];
        [discriminate Hin |]). by apply elem_of_nil in Hin.
    + intros He'. by destruct He.
  - eexists _, _. split; [reflexivity |]. cbn [trace heap fst]. split.
    + intros Hne. by destruct Hne.
    + intros _. split_and!; [reflexivity | reflexivity | ..].
      * do 12 apply list_elem_of_further. apply list_elem_of_here.
      * do 13 apply list_elem_of_further. apply list_elem_of_here.
      * do 14 apply list_elem_of_further. apply list_elem_of_here.
Qed.

(** An instance of C6: the program as written on the device that raises
    error 700 while running the kernel. *)
Lemma C6_witness :
  ∃ r m, Parallel.main faulty_device initial = Some (r, m) ∧
    r.1 = 1 ∧ dom (heap m) = {[0%nat; 1%nat; 2%nat]}.
Proof.
  destruct (C6_error_exit_leaks faulty_device Parallel.size)
    as (r & m & Hrun & Herr & _).
  - exact fair_faulty_device.
  - vm_compute. split; discriminate.
  - destruct Herr as (Hexit & Hdom & _); [vm_compute; discriminate |].
    exists r, m. split_and!; [exact Hrun | exact Hexit | exact Hdom].
Defined.

(** C7, as stated, fails: for the largest [int] the sum [size + 255] wraps
    around, and the quotient is negative. *)
Lemma C7_num_blocks_overflow :
  0 ≤ 2147483647 ∧ ¬ is_ceiling 2147483647 256 (Parallel.num_blocks 2147483647).
Proof.
  split; [discriminate |].
  change (Parallel.num_blocks 2147483647) with (-8388607).
  unfold is_ceiling. lia.
Qed.

(** C7, amended. On the integers, [(N + 255) / 256] with truncating
    division is the ceiling of [N / 256] for every [N ≥ 0]. The [int]
    expression of the program has this value for every size from 0 to
    [INT_MAX - 255], and it is the number of blocks that the program
    launches, with blocks of 256 units. *)
Theorem C7_num_blocks_is_ceiling (env : Env) (size : Z) :
  fair env → 0 ≤ size ≤ Int.INT_MAX - 255 →
  (∀ N, 0 ≤ N → is_ceiling N 256 ((N + 255) `quot` 256)) ∧
  Parallel.num_blocks size = (size + 255) `quot` 256 ∧
  is_ceiling size 256 (Parallel.num_blocks size) ∧
  ∃ r m, Parallel.main_with env size initial = Some (r, m) ∧
         EvLaunch (Parallel.num_blocks size) 256 ∈ trace m.
Proof.
  intros Hfair Hsize.
  assert (Hc : ∀ N, 0 ≤ N → is_ceiling N 256 ((N + 255) `quot` 256)).
  { intros N HN. unfold is_ceiling. Z.to_euclidean_division_equations. lia. }
  pose proof (num_blocks_small size Hsize) as Hnb.
  split_and!; [done | done | rewrite Hnb; apply Hc; lia |].
  assert (Hu : Int.to_uint (Parallel.num_blocks size) = Parallel.num_blocks size).
  { rewrite Hnb. apply to_uint_small.
    unfold Int.INT_MAX in *. Z.to_euclidean_division_equations. lia. }
  destruct (parallel_main_run env size (λ _, Hfair)) as (h & _ & _ & ->);
    [unfold Int.INT_MAX in *; lia |].
  rewrite Hu. change (Int.to_uint 256) with 256.
  case_bool_decide; eexists _, _; (split; [reflexivity |]); cbn [trace];
    do 6 apply list_elem_of_further; apply list_elem_of_here.
Qed.

(** An instance of C7, amended: the size of the program as written gives
    3907 blocks. *)
Lemma C7_witness : is_ceiling Parallel.size 256 3907.
Proof.
  apply (C7_num_blocks_is_ceiling quiet_device Parallel.size).
  - exact fair_quiet_device.
  - vm_compute. split; discriminate.
Defined.

(** C8, as stated, fails: with size 0 the parallel program does not exit
    with status 0, even on a device that raises no error. *)
Lemma C8_parallel_empty_not_exit_0 :
  ¬ ∃ h_c m, Parallel.main_with quiet_device 0 initial = Some ((0, h_c), m).
Proof.
  intros (h_c & m & Hrun). vm_compute in Hrun. discriminate Hrun.
Qed.

(** C8, amended. For size 0 the loop of the sequential adder performs no
    iteration, the output is empty and the sequential program exits with
    status 0 and nothing on standard error. The parallel program asks for a
    grid of 0 blocks; the runtime rejects the launch, so no unit runs and no
    element is written (the three device buffers are empty), the program
    reports [cudaErrorInvalidConfiguration] on standard error and exits with
    status 1, [h_c] being empty. *)
Theorem C8_empty_input (env : Env) :
  seq_iterations ([] : list f32) = 0%nat ∧
  vectorAddSequential Float32.add [] [] [] = Some [] ∧
  (∃ m, Sequential.main_with env 0 initial = Some ((0, []), m) ∧
        stderr m = EmptyString) ∧
  (∃ m, Parallel.main_with env 0 initial = Some ((1, []), m) ∧
        (∀ p buf, heap m !! p = Some buf → buf = []) ∧
        stderr m = "CUDA error: " +:+
          cudaGetErrorString env cudaErrorInvalidConfiguration +:+ newline ∧
        EvLaunch 0 256 ∈ trace m ∧
        EvGetLastError cudaErrorInvalidConfiguration ∈ trace m ∧
        ∀ p bytes, EvMemcpyDeviceToHost p bytes ∉ trace m).
Proof.
  split_and!; [reflexivity | reflexivity | |].
  - rewrite sequential_main_run by (unfold Int.INT_MAX; lia).
    eexists. split; reflexivity.
  - destruct (parallel_main_run env 0) as (h & _ & Hlen & ->).
    { intros Hv. vm_compute in Hv. discriminate Hv. }
    { unfold Int.INT_MAX. lia. }
    change (Parallel.launch_error env 0) with cudaErrorInvalidConfiguration.
    rewrite bool_decide_true by discriminate.
    eexists. split; [reflexivity |]. cbn [heap stderr trace]. split_and!.
    + intros p buf Hbuf. apply nil_length_inv. by rewrite (Hlen p buf Hbuf).
    + reflexivity.
    + do 6 apply list_elem_of_further. apply list_elem_of_here.
    + do 8 apply list_elem_of_further. apply list_elem_of_here.
    + intros p bytes Hin. repeat (apply elem_of_cons in Hin as [Hin | Hin];
        [discriminate Hin |]). by apply elem_of_nil in Hin.
Qed.

(** Each program is its three declarations followed by the rest of its
    [main]. *)
Lemma sequential_main_stages (env : Env) (size : Z) :
  Sequential.main_with env size
    = Stages.sequential_run env (Stages.host_vectors size).
Proof. reflexivity. Qed.

Lemma parallel_main_stages (env : Env) (size : Z) :
  Parallel.main_with env size
    = Stages.parallel_run env size (Stages.host_vectors size).
Proof. reflexivity. Qed.




(** C10, as stated, fails: for an input of 2^31 elements, with [b] and [c]
    as long, [int n = a.size()] is negative, the loop does not run and
    element 0 of [c] keeps its value 0.0 instead of receiving 1.0 + 2.0. *)
Lemma C10_narrowed_length_counterexample :
  (length (replicate huge Float32.one)
     ≤ length (replicate huge Float32.zero))%nat ∧
  (length (replicate huge Float32.one)
     ≤ length (replicate huge Float32.two))%nat ∧
  (0 < length (replicate huge Float32.one))%nat ∧
  seq_iterations (replicate huge Float32.one) = 0%nat ∧
  vectorAddSequential Float32.add (replicate huge Float32.one)
      (replicate huge Float32.two) (replicate huge Float32.zero)
    = Some (replicate huge Float32.zero) ∧
  replicate huge Float32.zero !! 0%nat = Some Float32.zero ∧
  sum_at Float32.add (replicate huge Float32.one) (replicate huge Float32.two) 0
    = Some Float32.three ∧
  Float32.zero ≠ Float32.three.
Proof.
  assert (Hhuge : Z.of_nat huge = 2147483648).
  { unfold huge. apply Z2Nat.id. discriminate. }
  assert (Hpos : (0 < huge)%nat) by lia.
  assert (Hk : seq_iterations (replicate huge Float32.one) = 0%nat).
  { unfold seq_iterations, seq_n. rewrite length_replicate, Hhuge.
    reflexivity. }
  rewrite !length_replicate.
  split_and!.
  - apply Nat.le_refl.
  - apply Nat.le_refl.
  - exact Hpos.
  - exact Hk.
  - rewrite vectorAddSequential_spec; rewrite Hk.
    + reflexivity.
    + apply Nat.le_0_l.
    + apply Nat.le_0_l.
  - apply lookup_replicate_2. exact Hpos.
  - unfold sum_at. rewrite !lookup_replicate_2 by exact Hpos. reflexivity.
  - discriminate.
Qed.

(** C10, amended. For every call where [a.size()] fits [int] (at most
    2^31 - 1) and is at most [b.size()] and [c.size()], the loop runs
    [a.size()] times: the first [a.size()] elements of [c] receive the sums,
    every element of [c] from index [a.size()] on keeps its value and [c]
    keeps its length. What [b] and [c] hold beyond [a.size()], and how long
    they are, has no effect on the elements written. *)
Theorem C10_sequential_frame {F : Type} (fadd : F → F → F) (a b c : list F) :
  Z.of_nat (length a) ≤ Int.INT_MAX →
  (length a ≤ length c)%nat → (length a ≤ length b)%nat →
  seq_iterations a = length a ∧
  ∃ c', vectorAddSequential fadd a b c = Some c' ∧
    length c' = length c ∧
    (∀ i x y, a !! i = Some x → b !! i = Some y → c' !! i = Some (fadd x y)) ∧
    (∀ j : nat, (length a ≤ j)%nat → c' !! j = c !! j) ∧
    (∀ b2 c2, vectorAddSequential fadd a (take (length a) b ++ b2)
                (take (length a) c ++ c2)
              = Some (take (length a) c' ++ c2)).
Proof.
  intros Hmax Hc Hb.
  pose proof (seq_iterations_fits a Hmax) as Hk. split; [done |].
  assert (Hzl : length (zip_with fadd a (take (length a) b)) = length a).
  { rewrite length_zip_with, length_take. lia. }
  rewrite vectorAddSequential_spec by lia. rewrite Hk, take_ge by done.
  eexists. split_and!; [reflexivity | | | |].
  - rewrite length_app, Hzl, length_drop. lia.
  - intros i x y Ha Hbi.
    assert (i < length a)%nat by (by apply lookup_lt_Some in Ha).
    rewrite lookup_app_l by lia.
    apply lookup_sums; [done |]. by rewrite lookup_take_lt.
  - intros j Hj. rewrite lookup_app_r by lia.
    rewrite Hzl, lookup_drop. f_equal. lia.
  - intros b2 c2.
    rewrite vectorAddSequential_spec, Hk;
      [| rewrite Hk, length_app, length_take; lia ..].
    rewrite (take_ge a) by done.
    rewrite take_app_le, take_take, Nat.min_id by (rewrite length_take; lia).
    rewrite take_app_length' by done.
    rewrite drop_app_length' by (rewrite length_take; lia).
    done.
Qed.

(** An instance of C10, amended: two inputs, a longer [b] and a longer
    [c]. *)
Lemma C10_witness :
  ∃ c', vectorAddSequential Z.add [1; 2] [10; 20; 30] [7; 7; 7; 7] = Some c' ∧
        c' !! 1%nat = Some 22 ∧ c' !! 2%nat = Some 7.
Proof.
  destruct (C10_sequential_frame Z.add [1; 2] [10; 20; 30] [7; 7; 7; 7])
    as (_ & c' & Hrun & _ & Hsum & Hrest & _).
  - vm_compute. discriminate.
  - simpl. lia.
  - simpl. lia.
  - exists c'. split_and!; [exact Hrun | |].
    + apply (Hsum 1%nat 2 20); reflexivity.
    + rewrite Hrest by (simpl; lia). reflexivity.
Defined.

(** * Further properties of the code *)

(** ** The sequential adder outside of its vectors *)

Section SequentialBounds.

Context {F : Type} (fadd : F → F → F).

(** An iteration at an index that [b] or [c] does not have is undefined. *)
Lemma seq_body_out_of_range (a b c : list F) (i : Z) :
  0 ≤ i →
  Z.of_nat (length b) ≤ i ∨ Z.of_nat (length c) ≤ i →
  seq_body fadd a b i c = None.
Proof.
  intros Hi Hout. unfold seq_body.
  rewrite !vec_get_lookup by done.
  destruct (a !! Z.to_nat i) as [x |]; [| done]. simpl.
  destruct (b !! Z.to_nat i) as [y |] eqn:Hy; [| done]. simpl.
  apply lookup_lt_Some in Hy.
  unfold vec_set. rewrite bool_decide_false by lia. done.
Qed.

(** The loop that has to pass an index [m] that [b] or [c] does not have
    is undefined, however much fuel it has. *)
Lemma for_lt_out_of_range (a b : list F) (n m : Z) (lc : nat) :
  n ≤ Int.INT_MAX → n ≤ Z.of_nat (length a) → 0 ≤ m < n →
  m ≤ Z.of_nat (length b) → m ≤ Z.of_nat lc →
  Z.of_nat (length b) ≤ m ∨ Z.of_nat lc ≤ m →
  ∀ (fuel : nat) (i : Z) (c : list F),
    0 ≤ i ≤ m → length c = lc →
    for_lt fuel i n (seq_body fadd a b) c = None.
Proof.
  intros Hmax Ha Hm Hmb Hmc Hout fuel.
  induction fuel as [| fuel IH]; intros i c Hi Hlen; simpl.
  - destruct (Z.ltb_spec i n); [done | lia].
  - destruct (Z.ltb_spec i n) as [_ |]; [| lia].
    destruct (decide (i = m)) as [-> | Hne].
    + rewrite seq_body_out_of_range by lia. done.
    + destruct (seq_body_in_range fadd a b c i) as (v & _ & ->); [lia ..|].
      simpl. rewrite int_add_small by (unfold Int.INT_MIN, Int.INT_MAX in *; lia).
      apply IH; [lia |]. by rewrite length_insert.
Qed.

End SequentialBounds.

(** With [b] or [c] shorter than the number of iterations the call is
    undefined. *)
Lemma sequential_undefined_short {F : Type} (fadd : F → F → F) (a b c : list F) :
  ¬ ((seq_iterations a ≤ length b)%nat ∧ (seq_iterations a ≤ length c)%nat) →
  vectorAddSequential fadd a b c = None.
Proof.
  intros Hshort. unfold vectorAddSequential.
  pose proof (seq_iterations_le a) as Hka.
  pose proof (to_int_range (Z.of_nat (length a))) as Hr. fold (seq_n a) in Hr.
  assert (Hk : Z.of_nat (seq_iterations a) = seq_n a ∨ seq_iterations a = 0%nat)
    by (unfold seq_iterations; lia).
  apply (for_lt_out_of_range fadd a b (seq_n a)
           (Z.of_nat (length b `min` length c)) (length c)); lia.
Qed.

(** X1. The sequential adder never looks at the lengths of [b] and [c]:
    with [k] the number of iterations (the length of [a] narrowed to
    [int]), the call is defined exactly when [b] and [c] have at least [k]
    elements, and then the result is the [k] sums followed by the elements
    of [c] from index [k] on; otherwise the loop indexes [b] or [c] past its
    end. *)
Theorem X1_sequential_defined_iff {F : Type} (fadd : F → F → F) (a b c : list F) :
  (is_Some (vectorAddSequential fadd a b c) ↔
     (seq_iterations a ≤ length b)%nat ∧ (seq_iterations a ≤ length c)%nat) ∧
  ((seq_iterations a ≤ length b)%nat → (seq_iterations a ≤ length c)%nat →
   vectorAddSequential fadd a b c =
     Some (zip_with fadd (take (seq_iterations a) a) (take (seq_iterations a) b)
             ++ drop (seq_iterations a) c)).
Proof.
  split; [| apply vectorAddSequential_spec]. split.
  - intros [c' Hc'].
    destruct (decide ((seq_iterations a ≤ length b)%nat
                      ∧ (seq_iterations a ≤ length c)%nat)) as [| Hshort];
      [done |].
    rewrite sequential_undefined_short in Hc' by done. discriminate Hc'.
  - intros [Hb Hc]. rewrite vectorAddSequential_spec by done. by eexists.
Qed.

(** X2. Running the sequential adder again on its own output changes
    nothing, and the output has the length that [c] had: the adder neither
    grows nor shrinks [c] and does not read what it wrote. *)
Theorem X2_sequential_idempotent {F : Type} (fadd : F → F → F)
    (a b c c' : list F) :
  vectorAddSequential fadd a b c = Some c' →
  length c' = length c ∧ vectorAddSequential fadd a b c' = Some c'.
Proof.
  intros Hrun.
  destruct (decide ((seq_iterations a ≤ length b)%nat
                    ∧ (seq_iterations a ≤ length c)%nat)) as [[Hb Hc] | Hshort];
    [| rewrite sequential_undefined_short in Hrun by done; discriminate Hrun].
  rewrite vectorAddSequential_spec in Hrun by done.
  injection Hrun as <-.
  pose proof (seq_iterations_le a) as Ha.
  assert (Hzl : length (zip_with fadd (take (seq_iterations a) a)
                          (take (seq_iterations a) b)) = seq_iterations a).
  { rewrite length_zip_with, !length_take. lia. }
  assert (Hlen : length (zip_with fadd (take (seq_iterations a) a)
                           (take (seq_iterations a) b)
                         ++ drop (seq_iterations a) c) = length c).
  { rewrite length_app, Hzl, length_drop. lia. }
  split; [done |].
  rewrite vectorAddSequential_spec by lia.
  by rewrite drop_app_length'.
Qed.

(** An instance of X2: two inputs and an output of three elements. *)
Lemma X2_witness :
  vectorAddSequential Z.add [1; 2] [10; 20] [11; 22; 7] = Some [11; 22; 7].
Proof.
  apply (X2_sequential_idempotent Z.add [1; 2] [10; 20] [5; 6; 7] [11; 22; 7]).
  reflexivity.
Defined.

(** ** Launches of any list of units *)

Section LaunchFacts.

Context {F : Type} (fadd : F → F → F).

(** Running units in any order, with inputs that the output buffer does not
    alias: an element of the output buffer whose index no unit below the
    guard has keeps its value. *)
Lemma run_threads_frame (a b c : nat) (n blockDim : Z) (la lb : list F) :
  a ≠ c → b ≠ c →
  n ≤ Z.of_nat (length la) → n ≤ Z.of_nat (length lb) →
  ∀ (ts : list (Z * Z)) (h : gmap nat (list F)) (lc : list F),
    h !! a = Some la → h !! b = Some lb → h !! c = Some lc →
    n ≤ Z.of_nat (length lc) →
    (∀ t, t ∈ ts → 0 ≤ global_index blockDim t.1 t.2) →
    ∃ lc', run_threads (vectorAddParallel fadd a b c n blockDim) ts h
             = Some (<[c := lc']> h) ∧
           ∀ j : nat,
             (∀ t, t ∈ ts → global_index blockDim t.1 t.2 < n →
                Z.to_nat (global_index blockDim t.1 t.2) ≠ j) →
             lc' !! j = lc !! j.
Proof.
  intros Hac Hbc Hla Hlb ts.
  induction ts as [| [bid tid] ts IH]; intros h lc Ha Hb Hc Hlc Hpos; simpl.
  - exists lc. split; [by rewrite insert_id | done].
  - set (i := global_index blockDim bid tid).
    assert (Hi0 : 0 ≤ i) by (apply (Hpos (bid, tid)); left).
    assert (Hrest : ∀ t, t ∈ ts → 0 ≤ global_index blockDim t.1 t.2)
      by (intros t Ht; apply Hpos; by right).
    destruct (Z_lt_le_dec i n) as [Hlt | Hge].
    + destruct (vectorAddParallel_write fadd a b c n blockDim bid tid h la lb lc)
        as (v & Hv & ->); [done .. | fold i; lia |].
      fold i. simpl.
      destruct (IH (<[c := <[Z.to_nat i := v]> lc]> h) (<[Z.to_nat i := v]> lc))
        as (lc' & -> & Hframe).
      { by rewrite lookup_insert_ne. }
      { by rewrite lookup_insert_ne. }
      { by rewrite lookup_insert_eq. }
      { rewrite length_insert. lia. }
      { done. }
      exists lc'. split; [by rewrite insert_insert_eq |].
      intros j Hj. rewrite Hframe.
      * apply list_lookup_insert_ne. apply (Hj (bid, tid)); [left | done].
      * intros t Ht. apply Hj. by right.
    + rewrite vectorAddParallel_guard by (fold i; lia). simpl.
      destruct (IH h lc) as (lc' & -> & Hframe); [done ..|].
      exists lc'. split; [done |].
      intros j Hj. apply Hframe. intros t Ht. apply Hj. by right.
Qed.

(** What a launch of any units leaves in the output buffer, element by
    element. *)
Lemma run_threads_pointwise (a b c : nat) (n blockDim : Z) (la lb lc : list F)
    (ts : list (Z * Z)) (h : gmap nat (list F)) :
  a ≠ c → b ≠ c →
  h !! a = Some la → h !! b = Some lb → h !! c = Some lc →
  n ≤ Z.of_nat (length la) → n ≤ Z.of_nat (length lb) →
  n ≤ Z.of_nat (length lc) →
  (∀ t, t ∈ ts → 0 ≤ global_index blockDim t.1 t.2) →
  ∃ lc', run_threads (vectorAddParallel fadd a b c n blockDim) ts h
           = Some (<[c := lc']> h) ∧
         length lc' = length lc ∧
         (∀ t, t ∈ ts → global_index blockDim t.1 t.2 < n →
            lc' !! Z.to_nat (global_index blockDim t.1 t.2)
              = sum_at fadd la lb (Z.to_nat (global_index blockDim t.1 t.2))) ∧
         (∀ j : nat,
            (∀ t, t ∈ ts → global_index blockDim t.1 t.2 < n →
               Z.to_nat (global_index blockDim t.1 t.2) ≠ j) →
            lc' !! j = lc !! j).
Proof.
  intros Hac Hbc Ha Hb Hc Hla Hlb Hlc Hpos.
  destruct (run_threads_vectorAdd fadd a b c n blockDim la lb Hac Hbc Hla Hlb
              ts h lc Ha Hb Hc Hlc Hpos) as (lc1 & Hrun1 & Hlen & _ & Hcov).
  destruct (run_threads_frame a b c n blockDim la lb Hac Hbc Hla Hlb
              ts h lc Ha Hb Hc Hlc Hpos) as (lc2 & Hrun2 & Hframe).
  assert (lc2 = lc1) as ->.
  { rewrite Hrun1 in Hrun2. injection Hrun2 as Heq.
    apply (f_equal (.!! c)) in Heq. rewrite !lookup_insert_eq in Heq.
    by injection Heq. }
  by exists lc1.
Qed.

End LaunchFacts.

(** X3. No data race: the result of a launch does not depend on the order
    in which the device runs the execution units. For buffers of at least
    [n] elements, the output one distinct from the inputs, and units whose
    indices do not wrap around, any two orders of the same units are both
    defined and end in the same device memory. *)
Theorem X3_launch_order_irrelevant {F : Type} (fadd : F → F → F)
    (a b c : nat) (n blockDim : Z) (la lb lc : list F)
    (ts ts' : list (Z * Z)) (h : gmap nat (list F)) :
  a ≠ c → b ≠ c →
  h !! a = Some la → h !! b = Some lb → h !! c = Some lc →
  n ≤ Z.of_nat (length la) → n ≤ Z.of_nat (length lb) →
  n ≤ Z.of_nat (length lc) →
  (∀ t, t ∈ ts → 0 ≤ global_index blockDim t.1 t.2) →
  ts ≡ₚ ts' →
  is_Some (run_threads (vectorAddParallel fadd a b c n blockDim) ts h) ∧
  run_threads (vectorAddParallel fadd a b c n blockDim) ts' h
    = run_threads (vectorAddParallel fadd a b c n blockDim) ts h.
Proof.
  intros Hac Hbc Ha Hb Hc Hla Hlb Hlc Hpos Hperm.
  assert (Hpos' : ∀ t, t ∈ ts' → 0 ≤ global_index blockDim t.1 t.2).
  { intros t Ht. apply Hpos. by rewrite Hperm. }
  destruct (run_threads_pointwise fadd a b c n blockDim la lb lc ts h)
    as (lc1 & Hrun1 & Hlen1 & Hcov1 & Hframe1); [done ..|].
  destruct (run_threads_pointwise fadd a b c n blockDim la lb lc ts' h)
    as (lc2 & Hrun2 & Hlen2 & Hcov2 & Hframe2); [done ..|].
  rewrite Hrun1, Hrun2. split; [by eexists |].
  do 2 f_equal. apply list_eq. intros j.
  destruct (decide (Exists (λ t, global_index blockDim t.1 t.2 < n
                              ∧ Z.to_nat (global_index blockDim t.1 t.2) = j) ts))
    as [Hex | Hnone].
  - apply Exists_exists in Hex as (t & Ht & Hlt & <-).
    rewrite Hcov1 by done. apply Hcov2; [by rewrite <- Hperm | done].
  - rewrite Exists_exists in Hnone.
    rewrite Hframe1, Hframe2; [done | |].
    + intros t Ht Hlt Heq. apply Hnone. exists t. by rewrite Hperm.
    + intros t Ht Hlt Heq. apply Hnone. by exists t.
Qed.

(** An instance of X3: the two units of a block of two, in both orders. *)
Lemma X3_witness :
  run_threads (vectorAddParallel Z.add 0 1 2 2 2) [(0, 1); (0, 0)]
      (three_buffers [1; 2] [10; 20] [0; 0])
    = run_threads (vectorAddParallel Z.add 0 1 2 2 2) [(0, 0); (0, 1)]
        (three_buffers [1; 2] [10; 20] [0; 0]).
Proof.
  apply (X3_launch_order_irrelevant Z.add 0%nat 1%nat 2%nat 2 2
           [1; 2] [10; 20] [0; 0] [(0, 0); (0, 1)] [(0, 1); (0, 0)]).
  - discriminate.
  - discriminate.
  - reflexivity.
  - reflexivity.
  - reflexivity.
  - simpl. lia.
  - simpl. lia.
  - simpl. lia.
  - intros t Ht. repeat (apply elem_of_cons in Ht as [-> | Ht]; [vm_compute; discriminate |]).
    by apply elem_of_nil in Ht.
  - apply perm_swap.
Defined.

(** X4. One unit, one element: a launch changes the output buffer only.
    Every other buffer, the two inputs among them, is as before; the output
    buffer keeps its length; an element whose index belongs to a unit below
    the guard holds the sum of the inputs at that index, and every other
    element keeps the value it had. A grid too small for [n] therefore
    leaves the elements past its last unit unprocessed. *)
Theorem X4_launch_frame {F : Type} (fadd : F → F → F)
    (a b c : nat) (n blockDim : Z) (la lb lc : list F)
    (ts : list (Z * Z)) (h : gmap nat (list F)) :
  a ≠ c → b ≠ c →
  h !! a = Some la → h !! b = Some lb → h !! c = Some lc →
  n ≤ Z.of_nat (length la) → n ≤ Z.of_nat (length lb) →
  n ≤ Z.of_nat (length lc) →
  (∀ t, t ∈ ts → 0 ≤ global_index blockDim t.1 t.2) →
  ∃ h' lc',
    run_threads (vectorAddParallel fadd a b c n blockDim) ts h = Some h' ∧
    (∀ p, p ≠ c → h' !! p = h !! p) ∧
    h' !! c = Some lc' ∧ length lc' = length lc ∧
    (∀ t, t ∈ ts → global_index blockDim t.1 t.2 < n →
       lc' !! Z.to_nat (global_index blockDim t.1 t.2)
         = sum_at fadd la lb (Z.to_nat (global_index blockDim t.1 t.2))) ∧
    (∀ j : nat,
       (∀ t, t ∈ ts → global_index blockDim t.1 t.2 < n →
          Z.to_nat (global_index blockDim t.1 t.2) ≠ j) →
       lc' !! j = lc !! j).
Proof.
  intros Hac Hbc Ha Hb Hc Hla Hlb Hlc Hpos.
  destruct (run_threads_pointwise fadd a b c n blockDim la lb lc ts h)
    as (lc' & Hrun & Hlen & Hcov & Hframe); [done ..|].
  exists (<[c := lc']> h), lc'. split_and!; [done | | | done ..].
  - intros p Hp. by rewrite lookup_insert_ne.
  - apply lookup_insert_eq.
Qed.

(** An instance of X4: one block of two units for three elements; the
    third element is not processed. *)
Lemma X4_witness :
  ∃ h' lc',
    run_threads (vectorAddParallel Z.add 0 1 2 3 2) (grid_threads 1 2)
      (three_buffers [1; 2; 3] [10; 20; 30] [7; 8; 9]) = Some h' ∧
    h' !! 2%nat = Some lc' ∧ lc' !! 1%nat = Some 22 ∧ lc' !! 2%nat = Some 9.
Proof.
  destruct (X4_launch_frame Z.add 0%nat 1%nat 2%nat 3 2
              [1; 2; 3] [10; 20; 30] [7; 8; 9] (grid_threads 1 2)
              (three_buffers [1; 2; 3] [10; 20; 30] [7; 8; 9]))
    as (h' & lc' & Hrun & _ & Hc & _ & Hcov & Hframe).
  - discriminate.
  - discriminate.
  - reflexivity.
  - reflexivity.
  - reflexivity.
  - simpl. lia.
  - simpl. lia.
  - simpl. lia.
  - intros t Ht. repeat (apply elem_of_cons in Ht as [-> | Ht]; [vm_compute; discriminate |]).
    by apply elem_of_nil in Ht.
  - exists h', lc'. split_and!; [exact Hrun | exact Hc | |].
    + apply (Hcov (0, 1)); [right; left | reflexivity].
    + rewrite Hframe; [reflexivity |].
      intros t Ht _.
      repeat (apply elem_of_cons in Ht as [-> | Ht]; [vm_compute; lia |]).
      by apply elem_of_nil in Ht.
Defined.

(** X5. The guard [i < n] does not stop a negative index. A unit whose
    index [threadIdx.x + blockDim.x * blockIdx.x] reaches 2^31 gets a
    negative [int i]; when [i < n] it reads [a[i]] before the start of the
    buffer, which is undefined. With blocks of 256 units this is the case
    from block 2^23 on. *)
Theorem X5_negative_index_undefined {F : Type} (fadd : F → F → F)
    (a b c : nat) (n blockDim bid tid : Z) (h : gmap nat (list F)) :
  global_index blockDim bid tid < 0 →
  global_index blockDim bid tid < n →
  vectorAddParallel fadd a b c n blockDim bid tid h = None.
Proof.
  intros Hneg Hlt. unfold vectorAddParallel.
  destruct (Z.ltb_spec (global_index blockDim bid tid) n) as [_ |]; [| lia].
  assert (Hload : dev_load h a (global_index blockDim bid tid) = None).
  { unfold dev_load. destruct (h !! a) as [la |]; [| reflexivity]. simpl.
    unfold vec_get. rewrite bool_decide_false by lia. reflexivity. }
  rewrite Hload. reflexivity.
Qed.

(** An instance of X5: the first unit of block 2^23, with blocks of 256
    units and three elements. *)
Lemma X5_witness :
  global_index 256 8388608 0 = -2147483648 ∧
  vectorAddParallel Z.add 0 1 2 3 256 8388608 0
    (three_buffers [1; 2; 3] [10; 20; 30] [0; 0; 0]) = None.
Proof.
  split; [reflexivity |].
  apply (X5_negative_index_undefined Z.add 0%nat 1%nat 2%nat 3 256 8388608 0).
  - reflexivity.
  - reflexivity.
Defined.

(** X6. Units past the guard touch nothing. A launch all of whose units
    have an index of at least [n] is defined and leaves device memory as it
    was, whatever the three pointers are, allocated or not; this is so for
    every launch with [n ≤ 0] whose indices do not wrap around. *)
Theorem X6_launch_past_guard {F : Type} (fadd : F → F → F)
    (a b c : nat) (n blockDim : Z) (ts : list (Z * Z)) (h : gmap nat (list F)) :
  (∀ t, t ∈ ts → n ≤ global_index blockDim t.1 t.2) →
  run_threads (vectorAddParallel fadd a b c n blockDim) ts h = Some h.
Proof.
  induction ts as [| [bid tid] ts IH]; intros Hpast; simpl; [done |].
  rewrite vectorAddParallel_guard by (apply (Hpast (bid, tid)); left).
  simpl. apply IH. intros t Ht. apply Hpast. by right.
Qed.

(** An instance of X6: no element and no buffer at all. *)
Lemma X6_witness :
  run_threads (vectorAddParallel Z.add 0 1 2 0 256) (grid_threads 1 256) ∅ = Some ∅.
Proof.
  apply (X6_launch_past_guard Z.add 0%nat 1%nat 2%nat 0 256 (grid_threads 1 256) ∅).
  intros [bid tid] Ht. apply elem_of_grid_threads in Ht. simpl.
  rewrite global_index_small; unfold Int.INT_MAX; lia.
Defined.

(** X7. Launching the kernel again on the memory it left changes nothing:
    the kernel reads its inputs only, so a second launch of the whole grid,
    in any order, rewrites the same sums. *)
Theorem X7_relaunch_idempotent {F : Type} (fadd : F → F → F)
    (a b c : nat) (gridDim blockDim : Z) (la lb lc : list F)
    (ts ts' : list (Z * Z)) (h h' : gmap nat (list F)) :
  a ≠ c → b ≠ c →
  h !! a = Some la → h !! b = Some lb → h !! c = Some lc →
  length la = length lc → length lb = length lc →
  0 < blockDim → 0 ≤ gridDim →
  Z.of_nat (length lc) ≤ gridDim * blockDim →
  gridDim * blockDim ≤ Int.INT_MAX + 1 →
  ts ≡ₚ grid_threads gridDim blockDim →
  ts' ≡ₚ grid_threads gridDim blockDim →
  run_threads (vectorAddParallel fadd a b c (Z.of_nat (length lc)) blockDim) ts h
    = Some h' →
  run_threads (vectorAddParallel fadd a b c (Z.of_nat (length lc)) blockDim) ts' h'
    = Some h'.
Proof.
  intros Hac Hbc Ha Hb Hc Hla Hlb Hbd Hgd Hcover Hmax Hperm Hperm' Hrun.
  rewrite (run_grid_vectorAdd fadd a b c gridDim blockDim ts h la lb lc) in Hrun
    by done.
  injection Hrun as <-.
  assert (Hlz : length (zip_with fadd la lb) = length lc).
  { rewrite length_zip_with. lia. }
  rewrite <- Hlz at 1.
  rewrite (run_grid_vectorAdd fadd a b c gridDim blockDim ts'
             (<[c := zip_with fadd la lb]> h) la lb (zip_with fadd la lb));
    try done; try lia.
  - by rewrite insert_insert_eq.
  - by rewrite lookup_insert_ne.
  - by rewrite lookup_insert_ne.
  - by rewrite lookup_insert_eq.
Qed.

(** An instance of X7: three elements, one block of four units, run forwards
    and then backwards. *)
Lemma X7_witness :
  run_threads (vectorAddParallel Z.add 0 1 2 3 4) (reverse (grid_threads 1 4))
      (three_buffers [1; 2; 3] [10; 20; 30] [11; 22; 33])
    = Some (three_buffers [1; 2; 3] [10; 20; 30] [11; 22; 33]).
Proof.
  apply (X7_relaunch_idempotent Z.add 0%nat 1%nat 2%nat 1 4
           [1; 2; 3] [10; 20; 30] [0; 0; 0]
           (grid_threads 1 4) (reverse (grid_threads 1 4))
           (three_buffers [1; 2; 3] [10; 20; 30] [0; 0; 0])).
  - discriminate.
  - discriminate.
  - reflexivity.
  - reflexivity.
  - reflexivity.
  - reflexivity.
  - reflexivity.
  - lia.
  - lia.
  - simpl. lia.
  - unfold Int.INT_MAX. lia.
  - reflexivity.
  - apply reverse_Permutation.
  - vm_compute. reflexivity.
Defined.

(** ** The two programs *)

(** X8. The reported duration. With a clock that does not run backwards
    between the two readings, the number that a program prints is the
    elapsed time in whole milliseconds, rounded down: it is not negative
    and it is 0 for anything shorter than a millisecond. This holds for the
    sequential program, and for the parallel one whenever it prints a
    duration at all. *)
Theorem X8_reported_duration (env : Env) (size : Z) :
  fair env → 0 ≤ size ≤ Int.INT_MAX →
  clock env 0 ≤ clock env 1 →
  (∃ r m d, Sequential.main_with env size initial = Some (r, m) ∧
     stdout m = "Sequential Vector Addition took " +:+ pretty d +:+
                " milliseconds." +:+ newline ∧
     0 ≤ d ∧
     d * 1000000 ≤ clock env 1 - clock env 0 < (d + 1) * 1000000) ∧
  (∃ r m, Parallel.main_with env size initial = Some (r, m) ∧
     (stdout m ≠ EmptyString →
      ∃ d, stdout m = "Parallel Vector Addition took " +:+ pretty d +:+
                      " milliseconds." +:+ newline ∧
           0 ≤ d ∧
           d * 1000000 ≤ clock env 1 - clock env 0 < (d + 1) * 1000000)).
Proof.
  intros Hfair Hsize Hclock.
  assert (Hd : 0 ≤ milliseconds (clock env 1 - clock env 0) ∧
               milliseconds (clock env 1 - clock env 0) * 1000000
                 ≤ clock env 1 - clock env 0
                 < (milliseconds (clock env 1 - clock env 0) + 1) * 1000000).
  { unfold milliseconds. Z.to_euclidean_division_equations. lia. }
  split.
  - rewrite sequential_main_run by done.
    eexists _, _, _. split; [reflexivity |]. cbn [stdout].
    split; [reflexivity | exact Hd].
  - destruct (parallel_main_run env size (λ _, Hfair) Hsize) as (h & _ & _ & ->).
    case_bool_decide as He.
    + eexists _, _. split; [reflexivity |]. cbn [stdout].
      intros Hne. by destruct Hne.
    + eexists _, _. split; [reflexivity |]. cbn [stdout].
      intros _. eexists. split; [reflexivity | exact Hd].
Qed.

(** An instance of X8: readings 1.5 ms apart are reported as 1 ms. *)
Lemma X8_witness :
  ∃ r m d, Sequential.main_with quiet_device 2 initial = Some (r, m) ∧
    stdout m = "Sequential Vector Addition took " +:+ pretty d +:+
               " milliseconds." +:+ newline ∧
    0 ≤ d ∧ d * 1000000 ≤ 1500000 < (d + 1) * 1000000.
Proof.
  apply (X8_reported_duration quiet_device 2).
  - exact fair_quiet_device.
  - vm_compute. split; discriminate.
  - vm_compute. discriminate.
Defined.

(** X9. The output never shows uninitialised device memory. Whatever the
    device leaves in freshly allocated memory, in whatever order it runs
    the units and whatever the clock reads, [h_c] is 3.0 everywhere when
    the program exits with status 0 and 0.0 everywhere when it exits with
    status 1; two runs that agree on whether an error was found end with
    the same exit status and the same [h_c]. *)
Theorem X9_output_independent_of_device (env1 env2 : Env) (size : Z) :
  fair env1 → fair env2 → 0 ≤ size ≤ Int.INT_MAX →
  ∃ r1 m1 r2 m2,
    Parallel.main_with env1 size initial = Some (r1, m1) ∧
    Parallel.main_with env2 size initial = Some (r2, m2) ∧
    (r1 = (0, replicate (Z.to_nat size) Float32.three) ∨
     r1 = (1, replicate (Z.to_nat size) Float32.zero)) ∧
    ((Parallel.launch_error env1 size = cudaSuccess
      ↔ Parallel.launch_error env2 size = cudaSuccess) → r1 = r2).
Proof.
  intros Hfair1 Hfair2 Hsize.
  destruct (parallel_main_run env1 size (λ _, Hfair1) Hsize) as (h1 & _ & _ & ->).
  destruct (parallel_main_run env2 size (λ _, Hfair2) Hsize) as (h2 & _ & _ & ->).
  do 2 case_bool_decide; eexists _, _, _, _;
    (split; [reflexivity |]); (split; [reflexivity |]);
    (split; [(by left) || (by right) |]); intros Hiff;
    try reflexivity; exfalso; tauto.
Qed.

(** An instance of X9: the quiet device against one that fills fresh
    memory with 1.0 and runs the units in the order of the grid. *)
Lemma X9_witness :
  ∃ r1 m1 r2 m2,
    Parallel.main_with quiet_device 2 initial = Some (r1, m1) ∧
    Parallel.main_with
      {| device_fault := cudaSuccess; schedule := λ ts, ts;
         uninitialised := λ _ _, Float32.one; clock := λ _, 0;
         cudaGetErrorString := λ _, EmptyString |} 2 initial = Some (r2, m2) ∧
    (r1 = (0, replicate (Z.to_nat 2) Float32.three) ∨
     r1 = (1, replicate (Z.to_nat 2) Float32.zero)).
Proof.
  destruct (X9_output_independent_of_device quiet_device
              {| device_fault := cudaSuccess; schedule := λ ts, ts;
                 uninitialised := λ _ _, Float32.one; clock := λ _, 0;
                 cudaGetErrorString := λ _, EmptyString |} 2)
    as (r1 & m1 & r2 & m2 & Hrun1 & Hrun2 & Hcases & _).
  - exact fair_quiet_device.
  - intros ts. reflexivity.
  - vm_compute. split; discriminate.
  - exists r1, m1, r2, m2. split_and!; [exact Hrun1 | exact Hrun2 | exact Hcases].
Defined.
